(** * The referral service (Express + Sequelize), latest variant

    A shallow embedding of the request handlers of the referral service:
    [POST /register], [POST /register-referred], [POST /bulk-lookup] and the
    two lookups, over a model of the [users] table.

    - The table is the list of its rows, oldest first.
    - A handler is an [Async] computation: it threads the table, and every
      store call may throw.  The exceptions a store call throws for reasons
      outside the handler (a lost connection, a row written by a concurrent
      request) are scripted in the world, one entry per store call.
    - [Math.random] and the clock are read from the environment [env].
    - A string is a sequence of characters, one [ascii] each.  The store
      library writes a string into a query with every NUL character replaced
      by a backslash and a zero ([sql_text]), and a [STRING] column holds at
      most 255 characters, a [STRING(9)] column at most 9. *)

From Stdlib Require Import ZArith Ascii.
From stdpp Require Import base gmap strings list pretty.

Local Open Scope Z_scope.

(** ** Data model *)

(** A row of [users], with the columns of [sequelize.define('User', ...)].
    [total_referrals] is a JS number holding an integer; a value the INTEGER
    column cannot hold makes the store call throw, which is one of the
    outside failures of [world]. *)
Record User : Type := mkUser {
  userid : string;
  wallet_address : string;
  referred_by : option string;
  referred_users : list string;
  total_referrals : Z;
  created_at : Z
}.

(** What a handler reads from outside the store: the clock (for the
    [DataTypes.NOW] default), the draws [Math.floor(Math.random() * 36)] in
    the order they are made, and the message texts of the store's errors for
    a unique-constraint violation and for a value too long for its column. *)
Record env : Type := mkEnv {
  now : Z;
  random : nat → nat;
  unique_text : string;
  too_long_text : string
}.

(** Exceptions thrown by store calls; the handlers only read [err.message]. *)
Inductive exn : Type :=
  | UniqueConstraintError (text : string)
  | StoreError (text : string).

Definition message (err : exn) : string :=
  match err with
  | UniqueConstraintError text => text
  | StoreError text => text
  end.

Inductive outcome (A : Type) : Type :=
  | Ok (a : A)
  | Throw (err : exn).
Arguments Ok {A} a.
Arguments Throw {A} err.

(** The world a handler runs in: the table, and for each coming store call
    whether it throws for an outside reason. *)
Record world : Type := mkWorld {
  users : list User;
  pending : list (option exn)
}.

(** A world whose store calls fail only by the table's own constraints. *)
Definition calm (db : list User) : world := mkWorld db [].

Definition Async (A : Type) : Type := world → outcome A * world.

(** [await]: the rest of the handler runs on the resolved value; a rejection
    skips it. *)
#[global] Instance async_ret : MRet Async := λ A a w, (Ok a, w).

#[global] Instance async_bind : MBind Async := λ A B k m w,
  match m w with
  | (Ok a, w') => k a w'
  | (Throw err, w') => (Throw err, w')
  end.

(** [try { ... } catch (err) { ... }] *)
Definition try_catch {A} (m : Async A) (handler : exn → Async A) : Async A :=
  λ w, match m w with
       | (Ok a, w') => (Ok a, w')
       | (Throw err, w') => handler err w'
       end.

(** ** The store *)

(** One store call: it consumes one entry of the script, and throws it if it
    is an exception; otherwise it runs on the table. *)
Definition query {A} (op : list User → outcome A * list User) : Async A :=
  λ w, match pending w with
       | Some err :: rest => (Throw err, mkWorld (users w) rest)
       | None :: rest => let '(r, db) := op (users w) in (r, mkWorld db rest)
       | [] => let '(r, db) := op (users w) in (r, mkWorld db [])
       end.

(** A string as the store library writes it into a query for this dialect:
    every NUL character becomes the two characters backslash and zero. *)
Fixpoint sql_text (s : string) : string :=
  match s with
  | EmptyString => EmptyString
  | String c rest =>
      if Ascii.eqb c "000"%char
      then String "092"%char (String "0"%char (sql_text rest))
      else String c (sql_text rest)
  end.

(** [User.findOne({ where: { wallet_address } })] *)
Definition findOne_wallet (w : string) : Async (option User) :=
  query (λ db, (Ok (find (λ u, String.eqb (wallet_address u) (sql_text w)) db), db)).

(** [User.findOne({ where: { userid } })] *)
Definition findOne_userid (id : string) : Async (option User) :=
  query (λ db, (Ok (find (λ u, String.eqb (userid u) (sql_text id)) db), db)).

(** [User.findAll({ where: { wallet_address: [...] } })]: the rows whose
    address is IN the list, in table order. *)
Definition findAll_wallets (ws : list string) : Async (list User) :=
  query (λ db, (Ok (filter (λ u, wallet_address u ∈ sql_text <$> ws) db), db)).

(** Does the row break the primary key on [userid] or [unique: true] on
    [wallet_address]? *)
Definition violates_unique (u : User) (db : list User) : bool :=
  existsb (λ v, String.eqb (userid v) (userid u)
                || String.eqb (wallet_address v) (wallet_address u)) db.

(** The row as the INSERT writes it: the strings of [userid],
    [wallet_address] and [referred_by] go through [sql_text]. *)
Definition stored (u : User) : User :=
  mkUser (sql_text (userid u)) (sql_text (wallet_address u))
         (sql_text <$> referred_by u) (referred_users u) (total_referrals u)
         (created_at u).

(** Does a value exceed its column: [STRING(9)] for [userid] and
    [referred_by], [STRING], which is VARCHAR(255), for [wallet_address]? *)
Definition too_long (u : User) : bool :=
  Nat.ltb 9 (String.length (userid u))
  || Nat.ltb 255 (String.length (wallet_address u))
  || match referred_by u with
     | Some r => Nat.ltb 9 (String.length r)
     | None => false
     end.

(** [User.create({...})]: the INSERT.  The store rejects a value too long for
    its column, then a row that breaks a uniqueness constraint; the instance
    the call resolves to is the row as written. *)
Definition create (e : env) (u : User) : Async User :=
  query (λ db, if too_long (stored u)
               then (Throw (StoreError (too_long_text e)), db)
               else if violates_unique (stored u) db
               then (Throw (UniqueConstraintError (unique_text e)), db)
               else (Ok (stored u), db ++ [stored u])).

(** [instance.save()] after [referred_users] and [total_referrals] were
    assigned: UPDATE of these two columns WHERE the primary key matches. *)
Definition write_back (inst u : User) : User :=
  if String.eqb (userid u) (userid inst)
  then mkUser (userid u) (wallet_address u) (referred_by u)
              (referred_users inst) (total_referrals inst) (created_at u)
  else u.

Definition save (inst : User) : Async () :=
  query (λ db, (Ok (), write_back inst <$> db)).

(** The row [User.create] inserts for the given attributes: [referred_users],
    [total_referrals] and [created_at] take their [defaultValue]. *)
Definition with_defaults (e : env) (id w : string) (r : option string) : User :=
  mkUser id w r [] 0 (now e).

(** ** Identifier generator *)

Definition chars : string := "ABCDEFGHIJKLMNOPQRSTUVWXYZ0123456789".

(** [s.charAt(i)]: the empty string out of range. *)
Definition charAt (s : string) (i : nat) : string :=
  match String.get i s with
  | Some c => String c EmptyString
  | None => EmptyString
  end.

(** [generateUserId()]: nine draws, appended left to right. *)
Definition generateUserId (rnd : nat → nat) : string :=
  foldl (λ result i, result +:+ charAt chars (rnd i)) EmptyString (seq 0 9).

(** ** Requests and responses *)

(** The values [wallet_addresses] may take in a parsed JSON body.  The
    elements of an array are strings. *)
Inductive jsval : Type :=
  | JUndefined
  | JNull
  | JBool (b : bool)
  | JNum (n : Z)
  | JStr (s : string)
  | JArr (items : list string)
  | JObj.

(** [Array.isArray] *)
Definition isArray (v : jsval) : bool :=
  match v with JArr _ => true | _ => false end.

Inductive payload : Type :=
  | Text (text : string)
  | Error (error : string)
  | Profile (userid wallet_address : string) (referred_by : option string)
            (referred_users : list string) (total_referrals created_at : Z)
  | Registered (message userid wallet_address referral_link : string)
  | ReferralInfo (userid referring_wallet : string)
  | Referred (message userid wallet_address : string) (referrer_new_total : Z)
  | Mapping (mapping : gmap string string).

Record response : Type := mkResponse {
  status : nat;
  body : payload
}.

(** [res.status(code).json(...)]; [res.json] and [res.send] alone answer 200. *)
Definition reply (code : nat) (p : payload) : Async response :=
  mret (mkResponse code p).

(** The [catch] block shared by all handlers. *)
Definition internal_error (err : exn) : Async response :=
  reply 500 (Error (message err)).

(** [mapping[key] = value] on an object created by [{}].  The key
    [__proto__] is not stored: the assignment reaches the accessor inherited
    from [Object.prototype], which ignores a string. *)
Definition js_set (key value : string) (o : gmap string string) : gmap string string :=
  if String.eqb key "__proto__" then o else <[key:=value]> o.

(** ** Handlers *)

(** [app.get('/')] *)
Definition get_root : Async response :=
  reply 200 (Text "Welcome to the Express Referral System!").

(** [app.get('/user/:wallet_address')] *)
Definition get_user (w : string) : Async response :=
  try_catch
    (user ← findOne_wallet w;
     match user with
     | None => reply 404 (Error "User not found for that wallet address.")
     | Some user =>
         reply 200 (Profile (userid user) (wallet_address user) (referred_by user)
                            (referred_users user) (total_referrals user)
                            (created_at user))
     end)
    internal_error.

(** [app.post('/register')].  A field of the body is absent or a string;
    [!wallet_address] holds of the absent field and of the empty string. *)
Definition register (e : env) (wallet : option string) : Async response :=
  try_catch
    (match wallet with
     | None | Some EmptyString => reply 400 (Error "Missing wallet_address")
     | Some w =>
         existingUser ← findOne_wallet w;
         match existingUser with
         | Some _ => reply 400 (Error "This wallet address is already registered.")
         | None =>
             let new_id := generateUserId (random e) in
             newUser ← create e (with_defaults e new_id w None);
             let referralLink := "http://localhost:3000/referral/" +:+ new_id in
             reply 201 (Registered "User registered successfully"
                                   (userid newUser) (wallet_address newUser)
                                   referralLink)
         end
     end)
    internal_error.

(** [app.get('/referral/:userid')] *)
Definition get_referral (id : string) : Async response :=
  try_catch
    (user ← findOne_userid id;
     match user with
     | None => reply 404 (Error "Invalid user ID")
     | Some user => reply 200 (ReferralInfo (userid user) (wallet_address user))
     end)
    internal_error.

(** The two assignments to the referrer instance before [save()]. *)
Definition credit (referrer : User) (new_id : string) : User :=
  mkUser (userid referrer) (wallet_address referrer) (referred_by referrer)
         (referred_users referrer ++ [new_id]) (total_referrals referrer + 1)
         (created_at referrer).

(** [app.post('/register-referred')] *)
Definition register_referred (e : env) (wallet referrer_id : option string)
  : Async response :=
  try_catch
    (match wallet, referrer_id with
     | None, _ | Some EmptyString, _ | _, None | _, Some EmptyString =>
         reply 400 (Error "Missing wallet_address or referred_by")
     | Some w, Some r =>
         existingUser ← findOne_wallet w;
         match existingUser with
         | Some _ => reply 400 (Error "This wallet address is already registered.")
         | None =>
             referrer ← findOne_userid r;
             match referrer with
             | None => reply 404 (Error "Referrer not found")
             | Some referrer =>
                 let new_id := generateUserId (random e) in
                 newUser ← create e (with_defaults e new_id w (Some r));
                 let referrer := credit referrer new_id in
                 save referrer;;
                 reply 201 (Referred "User registered with referral successfully"
                                     (userid newUser) (wallet_address newUser)
                                     (total_referrals referrer))
             end
         end
     end)
    internal_error.

(** The elements of an array value. *)
Definition items_of (v : jsval) : list string :=
  match v with JArr items => items | _ => [] end.

(** [users.forEach(user => { mapping[user.wallet_address] = user.userid })] *)
Definition build_mapping (found : list User) : gmap string string :=
  foldl (λ mapping user, js_set (wallet_address user) (userid user) mapping) ∅ found.

(** [app.post('/bulk-lookup')] *)
Definition bulk_lookup (wallet_addresses : jsval) : Async response :=
  try_catch
    (if negb (isArray wallet_addresses)
     then reply 400 (Error "wallet_addresses must be an array")
     else
       found ← findAll_wallets (items_of wallet_addresses);
       reply 200 (Mapping (build_mapping found)))
    internal_error.

(** ** The service as a transition system *)

Inductive request : Type :=
  | GetRoot
  | GetUser (wallet : string)
  | PostRegister (wallet : option string)
  | GetReferral (id : string)
  | PostRegisterReferred (wallet referrer_id : option string)
  | PostBulkLookup (wallet_addresses : jsval).

Definition handle (e : env) (req : request) : Async response :=
  match req with
  | GetRoot => get_root
  | GetUser w => get_user w
  | PostRegister wallet => register e wallet
  | GetReferral id => get_referral id
  | PostRegisterReferred wallet referrer_id => register_referred e wallet referrer_id
  | PostBulkLookup v => bulk_lookup v
  end.

(** The tables the service can leave behind, starting from the empty table:
    any requests, any randomness, any outside failures of the store. *)
Inductive reachable : list User → Prop :=
  | reachable_empty : reachable []
  | reachable_step db e req script resp w' :
      reachable db →
      handle e req (mkWorld db script) = (Ok resp, w') →
      reachable (users w').

(** A request succeeded when it was answered 200 or 201. *)
Definition succeeded (resp : response) : bool :=
  Nat.eqb (status resp) 200 || Nat.eqb (status resp) 201.

(** The tables left behind by successful requests only. *)
Inductive reachable_ok : list User → Prop :=
  | reachable_ok_empty : reachable_ok []
  | reachable_ok_step db e req script resp w' :
      reachable_ok db →
      handle e req (mkWorld db script) = (Ok resp, w') →
      succeeded resp = true →
      reachable_ok (users w').

(** The number of other users referred by [id]. *)
Definition referral_count (id : string) (db : list User) : nat :=
  length (filter (λ v, referred_by v = Some id ∧ userid v ≠ id) db).

(** ** Invariants and run shapes *)

(** What the table's constraints and the handlers' checks maintain. *)
Record well_formed (db : list User) : Prop := mkWellFormed {
  wf_ids : NoDup (userid <$> db);
  wf_wallets : NoDup (wallet_address <$> db);
  wf_wallet_nonempty : ∀ u, u ∈ db → wallet_address u ≠ "";
  wf_wallet_written : ∀ u, u ∈ db → sql_text (wallet_address u) = wallet_address u;
  wf_ids_alphabet : ∀ u c, u ∈ db → c ∈ String.list_ascii_of_string (userid u) →
                      c ∈ String.list_ascii_of_string chars;
  wf_referrer : ∀ u r, u ∈ db → referred_by u = Some r →
                  (r ∈ userid <$> db) ∧ r ≠ userid u;
  wf_referred : ∀ u id, u ∈ db → id ∈ referred_users u → id ∈ userid <$> db
}.

(** Every counter agrees with the rows that name its user as referrer, and
    with the length of that user's list. *)
Definition consistent (db : list User) : Prop :=
  ∀ u, u ∈ db →
    total_referrals u = Z.of_nat (referral_count (userid u) db) ∧
    total_referrals u = Z.of_nat (length (referred_users u)).

(** The three ways a run of [register_referred] can end: nothing written;
    the new row inserted but the referrer's update thrown; both written. *)
Variant referred_run (e : env) (wallet referrer_id : option string)
    (db : list User) (resp : response) (db' : list User) : Prop :=
  | referred_untouched :
      db' = db → status resp ≠ 201%nat →
      referred_run e wallet referrer_id db resp db'
  | referred_insert_only w r referrer err :
      wallet = Some w → referrer_id = Some r → w ≠ "" → r ≠ "" →
      (sql_text w ∉ wallet_address <$> db) →
      find (λ u, String.eqb (userid u) (sql_text r)) db = Some referrer →
      violates_unique (with_defaults e (generateUserId (random e)) (sql_text w)
                         (Some (sql_text r))) db = false →
      db' = db ++ [with_defaults e (generateUserId (random e)) (sql_text w)
                     (Some (sql_text r))] →
      resp = mkResponse 500 (Error (message err)) →
      too_long (with_defaults e (generateUserId (random e)) (sql_text w)
                  (Some (sql_text r))) = false →
      referred_run e wallet referrer_id db resp db'
  | referred_complete w r referrer :
      wallet = Some w → referrer_id = Some r → w ≠ "" → r ≠ "" →
      (sql_text w ∉ wallet_address <$> db) →
      find (λ u, String.eqb (userid u) (sql_text r)) db = Some referrer →
      violates_unique (with_defaults e (generateUserId (random e)) (sql_text w)
                         (Some (sql_text r))) db = false →
      db' = write_back (credit referrer (generateUserId (random e)))
              <$> (db ++ [with_defaults e (generateUserId (random e)) (sql_text w)
                            (Some (sql_text r))]) →
      resp = mkResponse 201
               (Referred "User registered with referral successfully"
                  (generateUserId (random e)) (sql_text w)
                  (total_referrals referrer + 1)) →
      too_long (with_defaults e (generateUserId (random e)) (sql_text w)
                  (Some (sql_text r))) = false →
      referred_run e wallet referrer_id db resp db'.

(** ** Notions used to state what the handlers keep *)

(** The columns of a row that no handler assigns after the insert. *)
Definition fixed_columns (u : User) : string * string * option string * Z :=
  (userid u, wallet_address u, referred_by u, created_at u).

(** The identifiers of the rows that name [id] as their referrer, oldest
    first: what [SELECT userid FROM users WHERE referred_by = id] gives. *)
Definition referred_ids (id : string) (db : list User) : list string :=
  userid <$> filter (λ v, referred_by v = Some id) db.

(** The answer of [GET /user/:wallet_address] for a row. *)
Definition profile_of (u : User) : response :=
  mkResponse 200 (Profile (userid u) (wallet_address u) (referred_by u)
                          (referred_users u) (total_referrals u) (created_at u)).

(** [!field] for a field of the body. *)
Definition missing (field : option string) : bool :=
  match field with
  | None | Some EmptyString => true
  | Some _ => false
  end.

(** The requests that pass their handler's checks of the body, so that the
    handler goes on to its first store call. *)
Definition reaches_store (req : request) : bool :=
  match req with
  | GetRoot => false
  | GetUser _ | GetReferral _ => true
  | PostRegister wallet => negb (missing wallet)
  | PostRegisterReferred wallet referrer_id =>
      negb (missing wallet) && negb (missing referrer_id)
  | PostBulkLookup v => isArray v
  end.

(** * The variant of [app.js]: UUID key, referral code, display id

    The same service with an earlier schema: the primary key is a UUID given
    by the store library, each user has a [referral_code] (unique) and a
    [frontend_id] for display, and [referred_by] is resolved against the
    wallet address of the referrer. *)

Module AppJs.

Record User : Type := mkUser {
  id : string;
  wallet_address : string;
  referral_code : string;
  referred_by : option string;
  total_referrals : Z;
  created_at : Z;
  frontend_id : option string
}.

(** What a handler reads from outside the store: the clock, the UUID the
    store library gives the [id] column ([DataTypes.UUIDV4]), the UUID that
    [generateReferralCode] draws, the value of
    [Math.floor(Math.random() * 900000)], and the message texts of the
    store's errors for a unique-constraint violation and for a value too long
    for its column. *)
Record env : Type := mkEnv {
  now : Z;
  row_uuid : string;
  code_uuid : string;
  draw : N;
  unique_text : string;
  too_long_text : string
}.

Record world : Type := mkWorld {
  users : list User;
  pending : list (option exn)
}.

Definition calm (db : list User) : world := mkWorld db [].

Definition Async (A : Type) : Type := world → outcome A * world.

#[export] Instance async_ret : MRet Async := λ A a w, (Ok a, w).

#[export] Instance async_bind : MBind Async := λ A B k m w,
  match m w with
  | (Ok a, w') => k a w'
  | (Throw err, w') => (Throw err, w')
  end.

Definition try_catch {A} (m : Async A) (handler : exn → Async A) : Async A :=
  λ w, match m w with
       | (Ok a, w') => (Ok a, w')
       | (Throw err, w') => handler err w'
       end.

Definition query {A} (op : list User → outcome A * list User) : Async A :=
  λ w, match pending w with
       | Some err :: rest => (Throw err, mkWorld (users w) rest)
       | None :: rest => let '(r, db) := op (users w) in (r, mkWorld db rest)
       | [] => let '(r, db) := op (users w) in (r, mkWorld db [])
       end.

(** [User.findOne({ where: { wallet_address } })] *)
Definition findOne_wallet (w : string) : Async (option User) :=
  query (λ db, (Ok (find (λ u, String.eqb (wallet_address u) (sql_text w)) db), db)).

(** [User.findOne({ where: { referral_code } })] *)
Definition findOne_code (code : string) : Async (option User) :=
  query (λ db, (Ok (find (λ u, String.eqb (referral_code u) (sql_text code)) db), db)).

(** The primary key on [id], and [unique: true] on [wallet_address] and on
    [referral_code]. *)
Definition violates_unique (u : User) (db : list User) : bool :=
  existsb (λ v, String.eqb (id v) (id u)
                || String.eqb (wallet_address v) (wallet_address u)
                || String.eqb (referral_code v) (referral_code u)) db.

(** The row as the INSERT writes it: its strings go through [sql_text]. *)
Definition stored (u : User) : User :=
  mkUser (id u) (sql_text (wallet_address u)) (sql_text (referral_code u))
         (sql_text <$> referred_by u) (total_referrals u) (created_at u)
         (sql_text <$> frontend_id u).

(** Does a value exceed the 255 characters of its [STRING] column? *)
Definition too_long (u : User) : bool :=
  Nat.ltb 255 (String.length (wallet_address u))
  || Nat.ltb 255 (String.length (referral_code u))
  || match referred_by u with
     | Some r => Nat.ltb 255 (String.length r)
     | None => false
     end
  || match frontend_id u with
     | Some fid => Nat.ltb 255 (String.length fid)
     | None => false
     end.

(** [User.create({...})]: the INSERT.  The store rejects a value too long for
    its column, then a row that breaks a uniqueness constraint; the instance
    the call resolves to is the row as written. *)
Definition create (e : env) (u : User) : Async User :=
  query (λ db, if too_long (stored u)
               then (Throw (StoreError (too_long_text e)), db)
               else if violates_unique (stored u) db
               then (Throw (UniqueConstraintError (unique_text e)), db)
               else (Ok (stored u), db ++ [stored u])).

(** [instance.save()] after [total_referrals] was assigned. *)
Definition write_back (inst u : User) : User :=
  if String.eqb (id u) (id inst)
  then mkUser (id u) (wallet_address u) (referral_code u) (referred_by u)
              (total_referrals inst) (created_at u) (frontend_id u)
  else u.

Definition save (inst : User) : Async () :=
  query (λ db, (Ok (), write_back inst <$> db)).

(** The row [User.create] inserts: [id], [total_referrals] and [created_at]
    take their [defaultValue]. *)
Definition with_defaults (e : env) (w code fid : string) (r : option string) : User :=
  mkUser (row_uuid e) w code r 0 (now e) (Some fid).

(** [uuidv4().slice(0, 8)] *)
Definition generateReferralCode (uuid : string) : string :=
  String.substring 0 8 uuid.

(** [`TW-${Math.floor(Math.random() * 900000) + 100000}`] *)
Definition generateFrontendId (floored : N) : string :=
  "TW-" +:+ pretty (floored + 100000)%N.

Inductive payload : Type :=
  | Text (text : string)
  | Error (error : string)
  | Registered (message user_uuid : string) (frontend_id : option string)
               (wallet_address referral_link : string)
  | ReferralInfo (user_uuid : string) (frontend_id : option string)
                 (referring_wallet : string)
  | Referred (message new_user_uuid : string) (new_user_frontend_id : option string)
             (new_user_wallet referral_code : string) (referrer_new_total : Z).

Record response : Type := mkResponse {
  status : nat;
  body : payload
}.

Definition reply (code : nat) (p : payload) : Async response :=
  mret (mkResponse code p).

Definition internal_error (err : exn) : Async response :=
  reply 500 (Error (message err)).

(** [app.get('/')] *)
Definition get_root : Async response :=
  reply 200 (Text "Welcome to the Express Referral System!").

(** [app.post('/register')] *)
Definition register (e : env) (wallet : option string) : Async response :=
  try_catch
    (match wallet with
     | None | Some EmptyString => reply 400 (Error "Missing wallet_address")
     | Some w =>
         existingUser ← findOne_wallet w;
         match existingUser with
         | Some _ => reply 400 (Error "This wallet address is already registered.")
         | None =>
             let code := generateReferralCode (code_uuid e) in
             let fid := generateFrontendId (draw e) in
             newUser ← create e (with_defaults e w code fid None);
             let referralLink :=
               "http://localhost:3000/referral/" +:+ referral_code newUser in
             reply 201 (Registered "User registered successfully"
                                   (id newUser) (frontend_id newUser)
                                   (wallet_address newUser) referralLink)
         end
     end)
    internal_error.

(** [app.get('/referral/:referral_code')] *)
Definition get_referral (code : string) : Async response :=
  try_catch
    (user ← findOne_code code;
     match user with
     | None => reply 404 (Error "Invalid referral code")
     | Some user =>
         reply 200 (ReferralInfo (id user) (frontend_id user) (wallet_address user))
     end)
    internal_error.

(** [referrer.total_referrals += 1] *)
Definition credit (referrer : User) : User :=
  mkUser (id referrer) (wallet_address referrer) (referral_code referrer)
         (referred_by referrer) (total_referrals referrer + 1)
         (created_at referrer) (frontend_id referrer).

(** [app.post('/register-referred')]: the referrer is the user whose
    wallet address is [referred_by]. *)
Definition register_referred (e : env) (wallet referrer_wallet : option string)
  : Async response :=
  try_catch
    (match wallet, referrer_wallet with
     | None, _ | Some EmptyString, _ | _, None | _, Some EmptyString =>
         reply 400 (Error "Missing wallet_address or referred_by")
     | Some w, Some r =>
         existingUser ← findOne_wallet w;
         match existingUser with
         | Some _ => reply 400 (Error "This wallet address is already registered.")
         | None =>
             referrer ← findOne_wallet r;
             match referrer with
             | None => reply 404 (Error "Referrer not found")
             | Some referrer =>
                 let code := generateReferralCode (code_uuid e) in
                 let fid := generateFrontendId (draw e) in
                 newUser ← create e (with_defaults e w code fid (Some r));
                 let referrer := credit referrer in
                 save referrer;;
                 reply 201 (Referred "User registered with referral successfully"
                                     (id newUser) (frontend_id newUser)
                                     (wallet_address newUser) (referral_code newUser)
                                     (total_referrals referrer))
             end
         end
     end)
    internal_error.

Inductive request : Type :=
  | GetRoot
  | PostRegister (wallet : option string)
  | GetReferral (code : string)
  | PostRegisterReferred (wallet referrer_wallet : option string).

Definition handle (e : env) (req : request) : Async response :=
  match req with
  | GetRoot => get_root
  | PostRegister wallet => register e wallet
  | GetReferral code => get_referral code
  | PostRegisterReferred wallet referrer_wallet =>
      register_referred e wallet referrer_wallet
  end.

(** The tables this variant can leave behind, starting from the empty one. *)
Inductive reachable : list User → Prop :=
  | reachable_empty : reachable []
  | reachable_step db e req script resp w' :
      reachable db →
      handle e req (mkWorld db script) = (Ok resp, w') →
      reachable (users w').

Definition succeeded (resp : response) : bool :=
  Nat.eqb (status resp) 200 || Nat.eqb (status resp) 201.

Inductive reachable_ok : list User → Prop :=
  | reachable_ok_empty : reachable_ok []
  | reachable_ok_step db e req script resp w' :
      reachable_ok db →
      handle e req (mkWorld db script) = (Ok resp, w') →
      succeeded resp = true →
      reachable_ok (users w').

(** The number of users whose [referred_by] is the wallet address [w]. *)
Definition referral_count (w : string) (db : list User) : nat :=
  length (filter (λ v, referred_by v = Some w) db).

Record well_formed (db : list User) : Prop := mkWellFormed {
  wf_ids : NoDup (id <$> db);
  wf_wallets : NoDup (wallet_address <$> db);
  wf_codes : NoDup (referral_code <$> db);
  wf_wallet_nonempty : ∀ u, u ∈ db → wallet_address u ≠ "";
  wf_wallet_written : ∀ u, u ∈ db → sql_text (wallet_address u) = wallet_address u;
  wf_referrer : ∀ u r, u ∈ db → referred_by u = Some r →
                  (r ∈ wallet_address <$> db) ∧ r ≠ wallet_address u
}.

(** The row a registration inserts, as written. *)
Definition new_row (e : env) (w : string) (r : option string) : User :=
  mkUser (row_uuid e) (sql_text w) (sql_text (generateReferralCode (code_uuid e)))
         (sql_text <$> r) 0 (now e) (Some (sql_text (generateFrontendId (draw e)))).

(** The three ways a run of [register_referred] can end. *)
Variant referred_run (e : env) (wallet referrer_wallet : option string)
    (db : list User) (resp : response) (db' : list User) : Prop :=
  | referred_untouched :
      db' = db → status resp ≠ 201%nat →
      referred_run e wallet referrer_wallet db resp db'
  | referred_insert_only w r referrer err :
      wallet = Some w → referrer_wallet = Some r → w ≠ "" → r ≠ "" →
      (sql_text w ∉ wallet_address <$> db) →
      find (λ u, String.eqb (wallet_address u) (sql_text r)) db = Some referrer →
      violates_unique (new_row e w (Some r)) db = false →
      db' = db ++ [new_row e w (Some r)] →
      resp = mkResponse 500 (Error (message err)) →
      too_long (new_row e w (Some r)) = false →
      referred_run e wallet referrer_wallet db resp db'
  | referred_complete w r referrer :
      wallet = Some w → referrer_wallet = Some r → w ≠ "" → r ≠ "" →
      (sql_text w ∉ wallet_address <$> db) →
      find (λ u, String.eqb (wallet_address u) (sql_text r)) db = Some referrer →
      violates_unique (new_row e w (Some r)) db = false →
      db' = write_back (credit referrer) <$> (db ++ [new_row e w (Some r)]) →
      resp = mkResponse 201
               (Referred "User registered with referral successfully"
                  (row_uuid e) (Some (sql_text (generateFrontendId (draw e))))
                  (sql_text w) (sql_text (generateReferralCode (code_uuid e)))
                  (total_referrals referrer + 1)) →
      too_long (new_row e w (Some r)) = false →
      referred_run e wallet referrer_wallet db resp db'.

(** Sample data. *)
Definition env0 : env :=
  mkEnv 1700000000 "3f2b8c1e-5d4a-4f6b-9c7d-0a1b2c3d4e5f"
        "9a8b7c6d-1111-4222-8333-444455556666" 0%N "Validation error"
        "value too long for type character varying(255)".
Definition env1 : env :=
  mkEnv 1700000001 "0c1d2e3f-aaaa-4bbb-8ccc-ddddeeeeffff"
        "1234abcd-0000-4000-8000-000000000000" 899999%N "Validation error"
        "value too long for type character varying(255)".

Definition carol : User :=
  mkUser "3f2b8c1e-5d4a-4f6b-9c7d-0a1b2c3d4e5f" "0xCAR" "9a8b7c6d" None 0
         1700000000 (Some "TW-100000").
Definition dave : User :=
  mkUser "0c1d2e3f-aaaa-4bbb-8ccc-ddddeeeeffff" "0xDAV" "1234abcd" (Some "0xCAR") 0
         1700000001 (Some "TW-999999").

End AppJs.

Arguments AppJs.generateReferralCode : simpl never.
Arguments AppJs.generateFrontendId : simpl never.
Arguments AppJs.stored : simpl never.
Arguments AppJs.too_long : simpl never.

(** ** Sample data *)

Definition env0 : env :=
  mkEnv 1700000000 (λ _, 0%nat) "Validation error"
        "value too long for type character varying(255)".
Definition env1 : env :=
  mkEnv 1700000001 (λ i, i) "Validation error"
        "value too long for type character varying(255)".

Definition alice : User := mkUser "AAAAAAAAA" "0xAAA" None [] 0 1700000000.
Definition bob : User := mkUser "ABCDEFGHI" "0xBBB" (Some "AAAAAAAAA") [] 0 1700000001.
Definition proto_user : User := mkUser "AAAAAAAAA" "__proto__" None [] 0 1700000000.

(** An address of 256 characters, and one with a NUL character in it. *)
Definition long_address : string :=
  String.string_of_list_ascii (replicate 256 "x"%char).
Definition nul_address : string :=
  String "a"%char (String "000"%char (String "b"%char EmptyString)).

Definition already_registered : response :=
  mkResponse 400 (Error "This wallet address is already registered.").

Definition store_down : exn := StoreError "Connection terminated unexpectedly".

Arguments generateUserId : simpl never.
Arguments sql_text : simpl never.
Arguments stored : simpl never.
Arguments too_long : simpl never.

(** ** Sample runs *)

Example generateUserId_env0 : generateUserId (random env0) = "AAAAAAAAA".
Proof. reflexivity. Qed.

Example generateUserId_env1 : generateUserId (random env1) = "ABCDEFGHI".
Proof. reflexivity. Qed.

Example generateUserId_last : generateUserId (λ _, 35%nat) = "999999999".
Proof. reflexivity. Qed.

Example register_first :
  register env0 (Some "0xAAA") (calm []) =
  (Ok (mkResponse 201 (Registered "User registered successfully" "AAAAAAAAA" "0xAAA"
                                  "http://localhost:3000/referral/AAAAAAAAA")),
   calm [alice]).
Proof. reflexivity. Qed.

Example register_again :
  register env1 (Some "0xAAA") (calm [alice]) =
  (Ok (mkResponse 400 (Error "This wallet address is already registered.")),
   calm [alice]).
Proof. reflexivity. Qed.

Example register_referred_bob :
  register_referred env1 (Some "0xBBB") (Some "AAAAAAAAA") (calm [alice]) =
  (Ok (mkResponse 201 (Referred "User registered with referral successfully"
                                "ABCDEFGHI" "0xBBB" 1)),
   calm [credit alice "ABCDEFGHI"; bob]).
Proof. reflexivity. Qed.

Example register_referred_unknown :
  register_referred env1 (Some "0xBBB") (Some "ZZZZZZZZZ") (calm [alice]) =
  (Ok (mkResponse 404 (Error "Referrer not found")), calm [alice]).
Proof. reflexivity. Qed.

Example bulk_lookup_mixed :
  bulk_lookup (JArr ["0xBBB"; "0xCCC"; "0xAAA"; "0xBBB"])
              (calm [credit alice "ABCDEFGHI"; bob]) =
  (Ok (mkResponse 200 (Mapping {[ "0xAAA" := "AAAAAAAAA"; "0xBBB" := "ABCDEFGHI" ]})),
   calm [credit alice "ABCDEFGHI"; bob]).
Proof. vm_compute. reflexivity. Qed.

(** ** Facts about the store calls *)

Lemma list_ascii_of_append (s1 s2 : string) :
  String.list_ascii_of_string (s1 +:+ s2) =
  String.list_ascii_of_string s1 ++ String.list_ascii_of_string s2.
Proof. induction s1 as [|c s1 IH]; simpl; [done | by rewrite IH]. Qed.

Lemma string_length_list (s : string) :
  String.length s = length (String.list_ascii_of_string s).
Proof. induction s as [|c s IH]; simpl; [done | by rewrite IH]. Qed.

Lemma string_get_lookup (s : string) (n : nat) :
  String.get n s = String.list_ascii_of_string s !! n.
Proof.
  revert n. induction s as [|c s IH]; intros [|n]; simpl; auto.
Qed.

(** The characters of [s.charAt(i)]: the one at [i], or none. *)
Lemma charAt_chars_list (s : string) (i : nat) :
  String.list_ascii_of_string (charAt s i) =
  option_list (String.list_ascii_of_string s !! i).
Proof.
  unfold charAt. rewrite string_get_lookup. by destruct (_ !! i).
Qed.

(** The identifier, character by character. *)
Lemma generateUserId_unfold rnd :
  String.list_ascii_of_string (generateUserId rnd) =
  seq 0 9 ≫= (λ i, option_list (String.list_ascii_of_string chars !! rnd i)).
Proof.
  unfold generateUserId.
  assert (∀ l s,
    String.list_ascii_of_string
      (foldl (λ result i, result +:+ charAt chars (rnd i)) s l) =
    String.list_ascii_of_string s ++
      (l ≫= (λ i, option_list (String.list_ascii_of_string chars !! rnd i)))) as Hgen.
  { induction l as [|i l IH]; intros s.
    - simpl. by rewrite app_nil_r.
    - rewrite bind_cons. simpl.
      rewrite IH, list_ascii_of_append, charAt_chars_list, <- app_assoc. done. }
  by rewrite Hgen.
Qed.

Lemma chars_NoDup : NoDup (String.list_ascii_of_string chars).
Proof. apply (bool_decide_unpack _). by vm_compute. Qed.

Lemma bind_option_list_length {A} (f : nat → option A) (l : list nat) :
  (length (l ≫= (λ i, option_list (f i))) ≤ length l)%nat.
Proof.
  induction l as [|i l IH]; [done|].
  rewrite bind_cons, List.length_app. destruct (f i); simpl; lia.
Qed.

Lemma bind_option_list_all {A} (f : nat → option A) (g : nat → A) (l : list nat) :
  (∀ i, i ∈ l → f i = Some (g i)) →
  l ≫= (λ i, option_list (f i)) = g <$> l.
Proof.
  induction l as [|i l IH]; intros Hall; [done|].
  rewrite bind_cons, fmap_cons, (Hall i) by apply list_elem_of_here. simpl. f_equal.
  apply IH. intros j Hj. apply Hall. by apply list_elem_of_further.
Qed.

(** Every character of a generated identifier is one of the alphabet. *)
Lemma generateUserId_alphabet rnd c :
  c ∈ String.list_ascii_of_string (generateUserId rnd) →
  c ∈ String.list_ascii_of_string chars.
Proof.
  rewrite generateUserId_unfold. intros (i & Hc & _)%list_elem_of_bind.
  destruct (String.list_ascii_of_string chars !! rnd i) as [c'|] eqn:Hi; simpl in Hc.
  - apply list_elem_of_singleton in Hc as ->. by eapply list_elem_of_lookup_2.
  - by apply elem_of_nil in Hc.
Qed.

Lemma generateUserId_length_le rnd : (String.length (generateUserId rnd) ≤ 9)%nat.
Proof.
  rewrite string_length_list, generateUserId_unfold.
  apply (bind_option_list_length _ (seq 0 9)).
Qed.

(** *** The rewriting of NUL *)

Lemma sql_text_cons c s :
  sql_text (String c s) =
  if Ascii.eqb c "000"%char
  then String "092"%char (String "0"%char (sql_text s))
  else String c (sql_text s).
Proof. reflexivity. Qed.

Lemma sql_text_nonempty s : s ≠ "" → sql_text s ≠ "".
Proof.
  destruct s as [|c s]; [done|]. intros _. rewrite sql_text_cons.
  by destruct (Ascii.eqb c "000"%char).
Qed.

(** A string without NUL is written as it is. *)
Lemma sql_text_plain s :
  ("000"%char ∉ String.list_ascii_of_string s) → sql_text s = s.
Proof.
  induction s as [|c s IH]; [done|]. simpl. intros [Hc Hs]%not_elem_of_cons.
  rewrite sql_text_cons. destruct (Ascii.eqb_spec c "000"%char); [congruence|].
  by rewrite IH.
Qed.

(** What is written has no NUL. *)
Lemma sql_text_no_NUL s : "000"%char ∉ String.list_ascii_of_string (sql_text s).
Proof.
  induction s as [|c s IH]; [apply not_elem_of_nil|]. rewrite sql_text_cons.
  destruct (Ascii.eqb_spec c "000"%char); simpl.
  - apply not_elem_of_cons. split; [done|]. by apply not_elem_of_cons.
  - apply not_elem_of_cons. split; [congruence | done].
Qed.

Lemma sql_text_idem s : sql_text (sql_text s) = sql_text s.
Proof. apply sql_text_plain, sql_text_no_NUL. Qed.

(** The writing at most doubles the length. *)
Lemma sql_text_length_le s : (String.length (sql_text s) ≤ 2 * String.length s)%nat.
Proof.
  induction s as [|c s IH]; [done|]. rewrite sql_text_cons.
  destruct (Ascii.eqb c "000"%char); simpl; lia.
Qed.

(** A string that is changed by the writing has a backslash once written. *)
Lemma sql_text_changed s :
  sql_text s ≠ s → "092"%char ∈ String.list_ascii_of_string (sql_text s).
Proof.
  induction s as [|c s IH]; [done|]. rewrite sql_text_cons.
  destruct (Ascii.eqb_spec c "000"%char); simpl.
  - intros _. apply list_elem_of_here.
  - intros Hne. apply list_elem_of_further, IH. congruence.
Qed.

(** A string over the alphabet of identifiers is written as it is, and so
    is any string whose written form is over that alphabet. *)
Lemma alphabet_written s :
  (∀ c, c ∈ String.list_ascii_of_string (sql_text s) →
        c ∈ String.list_ascii_of_string chars) →
  sql_text s = s.
Proof.
  intros Hall. destruct (decide (sql_text s = s)) as [|Hne]; [done|].
  apply sql_text_changed, Hall in Hne. revert Hne.
  apply (bool_decide_unpack _). by vm_compute.
Qed.

Lemma alphabet_plain s :
  (∀ c, c ∈ String.list_ascii_of_string s → c ∈ String.list_ascii_of_string chars) →
  sql_text s = s.
Proof.
  intros Hall. apply sql_text_plain. intros Hzero%Hall. revert Hzero.
  apply (bool_decide_unpack _). by vm_compute.
Qed.

Lemma sql_text_generateUserId rnd :
  sql_text (generateUserId rnd) = generateUserId rnd.
Proof. apply alphabet_plain. intros c. apply generateUserId_alphabet. Qed.

Lemma stored_with_defaults e rnd w r :
  stored (with_defaults e (generateUserId rnd) w r) =
  with_defaults e (generateUserId rnd) (sql_text w) (sql_text <$> r).
Proof.
  unfold stored, with_defaults. simpl. by rewrite sql_text_generateUserId.
Qed.


Lemma query_run {A} (op : list User → outcome A * list User) db script :
  query op (mkWorld db script) =
  match script with
  | Some err :: rest => (Throw err, mkWorld db rest)
  | _ => let '(r, db') := op db in (r, mkWorld db' (tail script))
  end.
Proof. destruct script as [|[err|] rest]; reflexivity. Qed.

Lemma find_wallet_None w (db : list User) :
  find (λ u, String.eqb (wallet_address u) w) db = None ↔
  w ∉ (wallet_address <$> db).
Proof.
  induction db as [|u db IH]; simpl.
  - split; [intros _; apply not_elem_of_nil | done].
  - rewrite not_elem_of_cons. destruct (String.eqb_spec (wallet_address u) w).
    + split; [done | intros [? _]; congruence].
    + rewrite IH. split; [intros ?; split; [congruence | done] | tauto].
Qed.

Lemma find_wallet_Some w (db : list User) u :
  find (λ u, String.eqb (wallet_address u) w) db = Some u →
  u ∈ db ∧ wallet_address u = w.
Proof.
  intros H. apply find_some in H as [Hin Heq].
  split; [by apply list_elem_of_In | by apply String.eqb_eq].
Qed.

Lemma find_userid_Some id (db : list User) u :
  find (λ u, String.eqb (userid u) id) db = Some u →
  u ∈ db ∧ userid u = id.
Proof.
  intros H. apply find_some in H as [Hin Heq].
  split; [by apply list_elem_of_In | by apply String.eqb_eq].
Qed.

Lemma find_userid_None id (db : list User) :
  find (λ u, String.eqb (userid u) id) db = None ↔ id ∉ (userid <$> db).
Proof.
  induction db as [|u db IH]; simpl.
  - split; [intros _; apply not_elem_of_nil | done].
  - rewrite not_elem_of_cons. destruct (String.eqb_spec (userid u) id).
    + split; [done | intros [? _]; congruence].
    + rewrite IH. split; [intros ?; split; [congruence | done] | tauto].
Qed.

Lemma find_wallet_unique (db : list User) u :
  NoDup (wallet_address <$> db) → u ∈ db →
  find (λ v, String.eqb (wallet_address v) (wallet_address u)) db = Some u.
Proof.
  induction db as [|v db IH]; intros Hnodup Hu; [by apply elem_of_nil in Hu|].
  rewrite fmap_cons in Hnodup. apply NoDup_cons in Hnodup as [Hv Hnodup].
  simpl. destruct (String.eqb_spec (wallet_address v) (wallet_address u)) as [Heq|Hne].
  - apply elem_of_cons in Hu as [->|Hu]; [done|].
    destruct Hv. rewrite Heq. by apply list_elem_of_fmap_2.
  - apply elem_of_cons in Hu as [->|Hu]; [done | by apply IH].
Qed.

Lemma find_userid_unique (db : list User) u :
  NoDup (userid <$> db) → u ∈ db →
  find (λ v, String.eqb (userid v) (userid u)) db = Some u.
Proof.
  induction db as [|v db IH]; intros Hnodup Hu; [by apply elem_of_nil in Hu|].
  rewrite fmap_cons in Hnodup. apply NoDup_cons in Hnodup as [Hv Hnodup].
  simpl. destruct (String.eqb_spec (userid v) (userid u)) as [Heq|Hne].
  - apply elem_of_cons in Hu as [->|Hu]; [done|].
    destruct Hv. rewrite Heq. by apply list_elem_of_fmap_2.
  - apply elem_of_cons in Hu as [->|Hu]; [done | by apply IH].
Qed.

Lemma too_long_new_row e rnd w r :
  (String.length w ≤ 255)%nat →
  (∀ r', r = Some r' → (String.length r' ≤ 9)%nat) →
  too_long (with_defaults e (generateUserId rnd) w r) = false.
Proof.
  intros Hw Hr. unfold too_long. simpl.
  pose proof (generateUserId_length_le rnd) as Hid.
  rewrite !orb_false_iff. split_and!; [by apply Nat.ltb_ge | by apply Nat.ltb_ge |].
  destruct r as [r'|]; [|done]. apply Nat.ltb_ge. by apply Hr.
Qed.

Lemma violates_unique_false u (db : list User) :
  violates_unique u db = false ↔
  (userid u ∉ userid <$> db) ∧ (wallet_address u ∉ wallet_address <$> db).
Proof.
  unfold violates_unique. induction db as [|v db IH]; simpl.
  - split; [intros _; split; apply not_elem_of_nil | done].
  - rewrite !not_elem_of_cons, !orb_false_iff, IH.
    destruct (String.eqb_spec (userid v) (userid u)),
             (String.eqb_spec (wallet_address v) (wallet_address u));
      split; intros H; destruct_and?; try done; repeat split; congruence.
Qed.

Lemma write_back_userid inst u : userid (write_back inst u) = userid u.
Proof. unfold write_back. by destruct (String.eqb _ _). Qed.

Lemma write_back_wallet inst u : wallet_address (write_back inst u) = wallet_address u.
Proof. unfold write_back. by destruct (String.eqb _ _). Qed.

Lemma write_back_referred_by inst u : referred_by (write_back inst u) = referred_by u.
Proof. unfold write_back. by destruct (String.eqb _ _). Qed.

Lemma write_back_other inst u : userid u ≠ userid inst → write_back inst u = u.
Proof. unfold write_back. by destruct (String.eqb_spec (userid u) (userid inst)). Qed.

Lemma write_back_hit inst u :
  userid u = userid inst →
  referred_users (write_back inst u) = referred_users inst ∧
  total_referrals (write_back inst u) = total_referrals inst.
Proof.
  unfold write_back. by destruct (String.eqb_spec (userid u) (userid inst)).
Qed.

Lemma fmap_write_back_userid inst (db : list User) :
  userid <$> (write_back inst <$> db) = userid <$> db.
Proof.
  rewrite <- list_fmap_compose. apply list_fmap_ext.
  intros ? u _. apply write_back_userid.
Qed.

Lemma fmap_write_back_wallet inst (db : list User) :
  wallet_address <$> (write_back inst <$> db) = wallet_address <$> db.
Proof.
  rewrite <- list_fmap_compose. apply list_fmap_ext.
  intros ? u _. apply write_back_wallet.
Qed.

(** ** What a run of each handler can be *)

Ltac unfold_handler :=
  unfold register, register_referred, get_user, get_referral, bulk_lookup,
    get_root, try_catch, internal_error, reply,
    findOne_wallet, findOne_userid, findAll_wallets, create, save;
  unfold mbind, async_bind, mret, async_ret;
  rewrite ?query_run.

(** Follow a handler through its store calls: each call throws the scripted
    exception or runs, each lookup finds a row or not, each insert is
    accepted or not. *)
Ltac run_handler :=
  repeat (simpl; rewrite ?query_run, ?stored_with_defaults;
          match goal with
          | |- context [match ?s with [] => _ | _ :: _ => _ end] =>
              is_var s; destruct s as [|[?|] ?]
          | |- context [find ?f ?db] => destruct (find f db) eqn:?
          | |- context [too_long ?u] => destruct (too_long u) eqn:?
          | |- context [violates_unique ?u ?db] =>
              destruct (violates_unique u db) eqn:?
          end);
  simpl.

Lemma register_inv e wallet db script resp w' :
  register e wallet (mkWorld db script) = (Ok resp, w') →
  (users w' = db ∧ status resp ≠ 201%nat) ∨
  (∃ w, wallet = Some w ∧ w ≠ "" ∧ (sql_text w ∉ wallet_address <$> db) ∧
        let row := with_defaults e (generateUserId (random e)) (sql_text w) None in
        violates_unique row db = false ∧ users w' = db ++ [row] ∧
        resp = mkResponse 201
                 (Registered "User registered successfully" (userid row) (sql_text w)
                    ("http://localhost:3000/referral/" +:+ userid row)) ∧
        too_long row = false).
Proof.
  unfold_handler. destruct wallet as [[|c s]|]; run_handler;
    intros [= <- <-]; try (left; by split).
  all: right; eexists; repeat split; try done.
  all: by apply find_wallet_None.
Qed.

Lemma register_referred_inv e wallet referrer_id db script resp w' :
  register_referred e wallet referrer_id (mkWorld db script) = (Ok resp, w') →
  referred_run e wallet referrer_id db resp (users w').
Proof.
  unfold_handler.
  destruct wallet as [[|c s]|], referrer_id as [[|c' s']|]; run_handler;
    intros [= <- <-]; try (by apply referred_untouched).
  all: match goal with H : find _ _ = None |- _ => apply find_wallet_None in H end.
  all: first [ by eapply referred_complete | by eapply referred_insert_only ].
Qed.

(** Every handler answers: its [catch] turns any exception into a response. *)
Lemma handle_answers e req w : ∃ resp w', handle e req w = (Ok resp, w').
Proof.
  destruct w as [db script], req as [|w|wallet|id|wallet referrer_id|v]; simpl.
  - by eexists _, _.
  - unfold_handler; run_handler; by eexists _, _.
  - unfold_handler; destruct wallet as [[|c s]|]; run_handler; by eexists _, _.
  - unfold_handler; run_handler; by eexists _, _.
  - unfold_handler;
      destruct wallet as [[|c s]|], referrer_id as [[|c' s']|]; run_handler;
      by eexists _, _.
  - unfold_handler; destruct v; run_handler; by eexists _, _.
Qed.

(** The lookups and the bulk lookup never write. *)
Lemma get_user_reads w db script resp w' :
  get_user w (mkWorld db script) = (Ok resp, w') → users w' = db.
Proof. unfold_handler; run_handler; by intros [= <- <-]. Qed.

Lemma get_referral_reads id db script resp w' :
  get_referral id (mkWorld db script) = (Ok resp, w') → users w' = db.
Proof. unfold_handler; run_handler; by intros [= <- <-]. Qed.

Lemma bulk_lookup_reads v db script resp w' :
  bulk_lookup v (mkWorld db script) = (Ok resp, w') → users w' = db.
Proof. unfold_handler; destruct v; run_handler; by intros [= <- <-]. Qed.

(** ** Invariants of the table *)

Lemma well_formed_nil : well_formed [].
Proof.
  split; try apply NoDup_nil_2; intros u *; by rewrite elem_of_nil.
Qed.

Lemma well_formed_insert db row :
  well_formed db →
  violates_unique row db = false →
  wallet_address row ≠ "" →
  sql_text (wallet_address row) = wallet_address row →
  (∀ c, c ∈ String.list_ascii_of_string (userid row) →
        c ∈ String.list_ascii_of_string chars) →
  (∀ r, referred_by row = Some r → r ∈ userid <$> db) →
  referred_users row = [] →
  well_formed (db ++ [row]).
Proof.
  intros [Hids Hwallets Hne Hwritten Halpha Href Hlist] [Hid Hw]%violates_unique_false
    Hrow Hrow' Hrow'' Hr Hnil.
  split.
  - rewrite fmap_app. apply NoDup_app. split_and!; [done| |apply NoDup_singleton].
    intros x Hx ->%list_elem_of_singleton. done.
  - rewrite fmap_app. apply NoDup_app. split_and!; [done| |apply NoDup_singleton].
    intros x Hx ->%list_elem_of_singleton. done.
  - intros u [Hu| ->%list_elem_of_singleton]%elem_of_app; [by apply Hne | done].
  - intros u [Hu| ->%list_elem_of_singleton]%elem_of_app; [by apply Hwritten | done].
  - intros u c [Hu| ->%list_elem_of_singleton]%elem_of_app;
      [by apply Halpha | by apply Hrow''].
  - intros u r [Hu| ->%list_elem_of_singleton]%elem_of_app Hby.
    + destruct (Href u r Hu Hby) as [Hin Hneq].
      split; [rewrite fmap_app; apply elem_of_app; by left | done].
    + specialize (Hr r Hby).
      split; [rewrite fmap_app; apply elem_of_app; by left | congruence].
  - intros u id [Hu| ->%list_elem_of_singleton]%elem_of_app Hid'.
    + rewrite fmap_app; apply elem_of_app; left. by eapply Hlist.
    + rewrite Hnil in Hid'. by apply elem_of_nil in Hid'.
Qed.

Lemma well_formed_write_back db inst :
  well_formed db →
  (∀ id, id ∈ referred_users inst → id ∈ userid <$> db) →
  well_formed (write_back inst <$> db).
Proof.
  intros [Hids Hwallets Hne Hwritten Halpha Href Hlist] Hinst.
  split; rewrite ?fmap_write_back_userid, ?fmap_write_back_wallet; try done.
  - intros u' (u & -> & Hu)%list_elem_of_fmap. rewrite write_back_wallet. by apply Hne.
  - intros u' (u & -> & Hu)%list_elem_of_fmap. rewrite write_back_wallet.
    by apply Hwritten.
  - intros u' c (u & -> & Hu)%list_elem_of_fmap. rewrite write_back_userid.
    by apply Halpha.
  - intros u' r (u & -> & Hu)%list_elem_of_fmap.
    rewrite write_back_referred_by, write_back_userid. by apply Href.
  - intros u' id (u & -> & Hu)%list_elem_of_fmap.
    destruct (decide (userid u = userid inst)) as [Heq|Hneq].
    + destruct (write_back_hit inst u Heq) as [-> _]. apply Hinst.
    + rewrite (write_back_other inst u Hneq). by apply Hlist.
Qed.

(** The row a registration writes can join a well-formed table. *)
Lemma well_formed_new_row db e w r :
  well_formed db → w ≠ "" →
  violates_unique (with_defaults e (generateUserId (random e)) (sql_text w) r) db = false →
  (∀ r', r = Some r' → r' ∈ userid <$> db) →
  well_formed (db ++ [with_defaults e (generateUserId (random e)) (sql_text w) r]).
Proof.
  intros Hwf Hw Hfresh Hr. apply well_formed_insert; try done; simpl.
  - by apply sql_text_nonempty.
  - apply sql_text_idem.
  - intros c. apply generateUserId_alphabet.
Qed.

(** One request keeps the invariants, whatever it is and however it ends. *)
Lemma step_well_formed e req db script resp w' :
  well_formed db →
  handle e req (mkWorld db script) = (Ok resp, w') →
  well_formed (users w').
Proof.
  intros Hwf. destruct req as [|w|wallet|id|wallet referrer_id|v]; simpl.
  - by intros [= <- <-].
  - by intros ->%get_user_reads.
  - intros [[-> _]|(w & -> & Hw & Hfree & Hfresh & -> & _)]%register_inv; [done|].
    by apply well_formed_new_row.
  - by intros ->%get_referral_reads.
  - intros Hrun%register_referred_inv.
    destruct Hrun as [-> _
      | w r referrer err -> -> Hw Hr Hfree [Hin Hid]%find_userid_Some Hfresh -> _ _
      | w r referrer -> -> Hw Hr Hfree [Hin Hid]%find_userid_Some Hfresh -> _ _];
      [done| |].
    + apply well_formed_new_row; try done.
      intros ? [= <-]. rewrite <- Hid. by apply list_elem_of_fmap_2.
    + apply well_formed_write_back.
      * apply well_formed_new_row; try done.
        intros ? [= <-]. rewrite <- Hid. by apply list_elem_of_fmap_2.
      * simpl. intros id [Hold| ->%list_elem_of_singleton]%elem_of_app;
          rewrite fmap_app; apply elem_of_app.
        -- left. by eapply (wf_referred db Hwf).
        -- right. apply list_elem_of_singleton. reflexivity.
  - by intros ->%bulk_lookup_reads.
Qed.

Lemma reachable_well_formed db : reachable db → well_formed db.
Proof.
  induction 1 as [|db e req script resp w' _ IH Hrun];
    [apply well_formed_nil | by eapply step_well_formed].
Qed.

Lemma reachable_ok_reachable db : reachable_ok db → reachable db.
Proof.
  induction 1 as [|db e req script resp w' _ IH Hrun _];
    [apply reachable_empty | by eapply reachable_step].
Qed.

(** ** Referral bookkeeping *)

Lemma referral_count_app id (db1 db2 : list User) :
  referral_count id (db1 ++ db2) = (referral_count id db1 + referral_count id db2)%nat.
Proof. unfold referral_count. by rewrite filter_app, List.length_app. Qed.

Lemma referral_count_write_back id inst (db : list User) :
  referral_count id (write_back inst <$> db) = referral_count id db.
Proof.
  unfold referral_count. induction db as [|u db IH]; [done|].
  rewrite fmap_cons, !filter_cons, write_back_referred_by, write_back_userid.
  destruct (decide _); simpl; by rewrite IH.
Qed.

Lemma referral_count_unreferenced id (db : list User) :
  (∀ v, v ∈ db → referred_by v ≠ Some id) → referral_count id db = 0%nat.
Proof.
  unfold referral_count. induction db as [|u db IH]; intros Hno; [done|].
  rewrite filter_cons. destruct (decide _) as [[Hby _]|_].
  - destruct (Hno u); [apply list_elem_of_here | done].
  - apply IH. intros v Hv. apply Hno. by apply list_elem_of_further.
Qed.

Lemma referral_count_fresh id (db : list User) :
  well_formed db → (id ∉ userid <$> db) → referral_count id db = 0%nat.
Proof.
  intros Hwf Hfresh. apply referral_count_unreferenced. intros v Hv Hby.
  by destruct (wf_referrer db Hwf v id Hv Hby).
Qed.

Lemma consistent_register db e w :
  well_formed db → consistent db →
  violates_unique (with_defaults e (generateUserId (random e)) w None) db = false →
  consistent (db ++ [with_defaults e (generateUserId (random e)) w None]).
Proof.
  intros Hwf Hcons [Hid _]%violates_unique_false u Hu.
  rewrite referral_count_app. unfold referral_count at 2. rewrite filter_cons.
  destruct (decide _) as [[[=] _]|_]. simpl. rewrite Nat.add_0_r.
  apply elem_of_app in Hu as [Hu| ->%list_elem_of_singleton].
  - by apply Hcons.
  - simpl. by rewrite referral_count_fresh.
Qed.

Lemma consistent_register_referred db e w r referrer :
  well_formed db → consistent db →
  find (λ u, String.eqb (userid u) r) db = Some referrer →
  violates_unique (with_defaults e (generateUserId (random e)) w (Some r)) db = false →
  consistent (write_back (credit referrer (generateUserId (random e)))
                <$> (db ++ [with_defaults e (generateUserId (random e)) w (Some r)])).
Proof.
  intros Hwf Hcons [Hin Hr]%find_userid_Some [Hid _]%violates_unique_false.
  simpl in Hid. set (nid := generateUserId (random e)) in *.
  assert (Hneq : nid ≠ r).
  { intros ->. apply Hid. rewrite <- Hr. by apply list_elem_of_fmap_2. }
  intros u' (u & -> & Hu)%list_elem_of_fmap.
  rewrite write_back_userid, referral_count_write_back, referral_count_app.
  unfold referral_count at 2. rewrite filter_cons. simpl.
  apply elem_of_app in Hu as [Hu| ->%list_elem_of_singleton].
  - destruct (Hcons u Hu) as [Hcount Hlen].
    destruct (decide (userid u = r)) as [Heq|Hother].
    + destruct (write_back_hit (credit referrer nid) u) as [-> ->];
        [simpl; congruence|].
      destruct (Hcons referrer Hin) as [Hcount' Hlen']. simpl.
      rewrite List.length_app. simpl.
      destruct (decide _) as [_|Hno]; [|destruct Hno; split; congruence].
      simpl. rewrite <- Heq, Hr in *. lia.
    + rewrite write_back_other by (simpl; congruence).
      destruct (decide _) as [[[=] _]|_]; [congruence|].
      simpl. rewrite Nat.add_0_r. done.
  - rewrite write_back_other by (simpl; congruence). simpl.
    destruct (decide _) as [[[=] _]|_]; [congruence|].
    simpl. by rewrite referral_count_fresh.
Qed.

Lemma reachable_ok_consistent db : reachable_ok db → consistent db.
Proof.
  induction 1 as [|db e req script resp w' Hreach IH Hrun Hok].
  { intros u Hu. by apply elem_of_nil in Hu. }
  pose proof (reachable_well_formed db (reachable_ok_reachable db Hreach)) as Hwf.
  destruct req as [|w|wallet|id|wallet referrer_id|v]; simpl in Hrun.
  - by injection Hrun as <- <-.
  - by apply get_user_reads in Hrun as ->.
  - apply register_inv in Hrun as [[-> _]|(w & -> & Hw & Hfree & Hfresh & -> & _)];
      [done | by apply consistent_register].
  - by apply get_referral_reads in Hrun as ->.
  - apply register_referred_inv in Hrun.
    destruct Hrun as [-> _
      | w r referrer err _ _ _ _ _ _ _ _ ->
      | w r referrer _ _ _ _ _ Hfind Hfresh -> _];
      [done | discriminate Hok | by apply consistent_register_referred].
  - by apply bulk_lookup_reads in Hrun as ->.
Qed.

(** ** Sample tables the service reaches *)

Lemma alice_reachable_ok : reachable_ok [alice].
Proof.
  exact (reachable_ok_step [] env0 (PostRegister (Some "0xAAA")) [] _ (calm [alice])
           reachable_ok_empty eq_refl eq_refl).
Defined.

Lemma alice_bob_reachable_ok : reachable_ok [credit alice "ABCDEFGHI"; bob].
Proof.
  exact (reachable_ok_step [alice] env1
           (PostRegisterReferred (Some "0xBBB") (Some "AAAAAAAAA")) [] _
           (calm [credit alice "ABCDEFGHI"; bob])
           alice_reachable_ok eq_refl eq_refl).
Defined.

Lemma alice_reachable : reachable [alice].
Proof.
  exact (reachable_step [] env0 (PostRegister (Some "0xAAA")) [] _ (calm [alice])
           reachable_empty eq_refl).
Defined.

Lemma alice_bob_reachable : reachable [credit alice "ABCDEFGHI"; bob].
Proof.
  exact (reachable_step [alice] env1
           (PostRegisterReferred (Some "0xBBB") (Some "AAAAAAAAA")) [] _
           (calm [credit alice "ABCDEFGHI"; bob]) alice_reachable eq_refl).
Defined.

(** ** The referral counter (C1) *)

(** C1: in every table reached by successful requests, each user's
    [total_referrals] is the number of other users whose [referred_by] is
    that user's identifier, and is the length of that user's
    [referred_users]. *)
Theorem total_referrals_counts_referred db u :
  reachable_ok db → u ∈ db →
  total_referrals u = Z.of_nat (referral_count (userid u) db) ∧
  total_referrals u = Z.of_nat (length (referred_users u)).
Proof. intros Hreach Hu. by apply reachable_ok_consistent. Qed.

Lemma total_referrals_counts_referred_witness :
  reachable_ok [credit alice "ABCDEFGHI"; bob] ∧
  credit alice "ABCDEFGHI" ∈ [credit alice "ABCDEFGHI"; bob] ∧
  total_referrals (credit alice "ABCDEFGHI") =
    Z.of_nat (referral_count "AAAAAAAAA" [credit alice "ABCDEFGHI"; bob]) ∧
  total_referrals (credit alice "ABCDEFGHI") = Z.of_nat 1.
Proof.
  split; [exact alice_bob_reachable_ok|].
  split; [apply list_elem_of_here|].
  exact (total_referrals_counts_referred [credit alice "ABCDEFGHI"; bob]
           (credit alice "ABCDEFGHI") alice_bob_reachable_ok
           (list_elem_of_here _ _)).
Defined.

(** ** No user refers themselves (C9) *)

(** C9: in every reachable table, no user's [referred_by] is that user's own
    identifier: the referrer is a row that exists before the insert, and the
    insert rejects an identifier that is already a row's. *)
Theorem no_self_referral db u :
  reachable db → u ∈ db → referred_by u ≠ Some (userid u).
Proof.
  intros Hwf%reachable_well_formed Hu Hby.
  by destruct (wf_referrer db Hwf u (userid u) Hu Hby).
Qed.

(** The other half of the argument: when the generated identifier is the
    referrer's own, the insert is rejected and no row is written. *)
Lemma colliding_identifier_rejected e w r db script resp w' :
  register_referred e (Some w) (Some r) (mkWorld db script) = (Ok resp, w') →
  generateUserId (random e) = r →
  users w' = db ∧ status resp ≠ 201%nat.
Proof.
  intros Hrun%register_referred_inv Hsame.
  destruct Hrun as [-> Hno
    | w0 r0 referrer err _ [= <-] _ _ _ [Hin Hid]%find_userid_Some
        [Hfresh _]%violates_unique_false _ _
    | w0 r0 referrer _ [= <-] _ _ _ [Hin Hid]%find_userid_Some
        [Hfresh _]%violates_unique_false _ _]; [done | |].
  all: rewrite <- Hsame, sql_text_generateUserId in Hid.
  all: destruct Hfresh; simpl; rewrite <- Hid; by apply list_elem_of_fmap_2.
Qed.

Lemma no_self_referral_witness :
  reachable [credit alice "ABCDEFGHI"; bob] ∧
  bob ∈ [credit alice "ABCDEFGHI"; bob] ∧
  referred_by bob ≠ Some (userid bob).
Proof.
  split; [exact alice_bob_reachable|].
  split; [apply list_elem_of_further, list_elem_of_here|].
  exact (no_self_referral [credit alice "ABCDEFGHI"; bob] bob alice_bob_reachable
           (list_elem_of_further _ _ _ (list_elem_of_here _ _))).
Defined.

(** ** Registration (C3, C8) *)

(** C3: if a user with wallet address [w] exists in the table, [POST /register]
    with [w] answers 400 "This wallet address is already registered." and
    leaves the table as it was: no row is inserted. *)
Theorem register_twice_conflict e db u w :
  reachable db → u ∈ db → wallet_address u = w →
  register e (Some w) (calm db) = (Ok already_registered, calm db).
Proof.
  intros Hwf%reachable_well_formed Hu <-.
  pose proof (wf_wallet_nonempty db Hwf u Hu) as Hne.
  pose proof (find_wallet_unique db u (wf_wallets db Hwf) Hu) as Hfind.
  rewrite <- (wf_wallet_written db Hwf u Hu) in Hfind.
  unfold_handler. destruct (wallet_address u) as [|c s] eqn:Hw; [done|].
  simpl. by rewrite Hfind.
Qed.

Lemma register_twice_conflict_witness :
  reachable [alice] ∧ alice ∈ [alice] ∧ wallet_address alice = "0xAAA" ∧
  register env1 (Some "0xAAA") (calm [alice]) = (Ok already_registered, calm [alice]).
Proof.
  split; [exact alice_reachable|].
  split; [apply list_elem_of_here|].
  split; [reflexivity|].
  exact (register_twice_conflict env1 [alice] alice "0xAAA" alice_reachable
           (list_elem_of_here _ _) eq_refl).
Defined.

(** C8 as stated fails in three ways.  When the generated identifier is
    already a row's, the insert of an unregistered wallet address is rejected:
    500, no row.  An unregistered address of 256 characters exceeds the
    column: 500, no row.  And an address with a NUL character is written, and
    answered, with backslash and zero in its place. *)
Lemma register_fresh_wallet_counterexample :
  ("0xCCC" ≠ "" ∧ ("0xCCC" ∉ wallet_address <$> [alice]) ∧ reachable [alice] ∧
   register env0 (Some "0xCCC") (calm [alice]) =
   (Ok (mkResponse 500 (Error "Validation error")), calm [alice])) ∧
  (long_address ≠ "" ∧ (long_address ∉ wallet_address <$> [alice]) ∧
   (generateUserId (random env1) ∉ userid <$> [alice]) ∧
   register env1 (Some long_address) (calm [alice]) =
   (Ok (mkResponse 500 (Error "value too long for type character varying(255)")),
    calm [alice])) ∧
  (nul_address ≠ "" ∧ (nul_address ∉ wallet_address <$> [alice]) ∧
   (generateUserId (random env1) ∉ userid <$> [alice]) ∧
   register env1 (Some nul_address) (calm [alice]) =
   (Ok (mkResponse 201
          (Registered "User registered successfully" "ABCDEFGHI" "a\0b"
             "http://localhost:3000/referral/ABCDEFGHI")),
    calm [alice; mkUser "ABCDEFGHI" "a\0b" None [] 0 1700000001]) ∧
   "a\0b" ≠ nul_address).
Proof.
  split_and!; try done; try exact alice_reachable; try reflexivity.
  all: by intros [=]%list_elem_of_singleton.
Qed.

(** C8, amended: for a non-empty wallet address [w] that, as the store
    writes it, has at most 255 characters and is no user's, and a generated
    identifier no user has, [register] inserts exactly one row, with the
    address as written, [total_referrals] 0, [referred_by] null and
    [referred_users] empty, and answers 201 with the new identifier and the
    address as written. *)
Theorem register_inserts_fresh_row e db w :
  w ≠ "" →
  (String.length (sql_text w) ≤ 255)%nat →
  (sql_text w ∉ wallet_address <$> db) →
  (generateUserId (random e) ∉ userid <$> db) →
  register e (Some w) (calm db) =
  (Ok (mkResponse 201
         (Registered "User registered successfully" (generateUserId (random e))
            (sql_text w)
            ("http://localhost:3000/referral/" +:+ generateUserId (random e)))),
   calm (db ++ [mkUser (generateUserId (random e)) (sql_text w) None [] 0 (now e)])).
Proof.
  intros Hne Hlen Hfree%find_wallet_None Hfresh.
  assert (violates_unique
            (with_defaults e (generateUserId (random e)) (sql_text w) None) db = false)
    as Hok by (apply violates_unique_false; split; [done | by apply find_wallet_None]).
  assert (too_long (with_defaults e (generateUserId (random e)) (sql_text w) None) = false)
    as Hfits by by apply too_long_new_row.
  unfold_handler. destruct w as [|c s]; [done|].
  simpl. rewrite Hfree. rewrite ?query_run. simpl.
  rewrite stored_with_defaults. change (sql_text <$> None) with (@None string).
  by rewrite Hfits, Hok.
Qed.

Lemma register_inserts_fresh_row_witness :
  nul_address ≠ "" ∧ (String.length (sql_text nul_address) ≤ 255)%nat ∧
  (sql_text nul_address ∉ wallet_address <$> [alice]) ∧
  (generateUserId (random env1) ∉ userid <$> [alice]) ∧
  register env1 (Some nul_address) (calm [alice]) =
  (Ok (mkResponse 201
         (Registered "User registered successfully" "ABCDEFGHI" "a\0b"
            "http://localhost:3000/referral/ABCDEFGHI")),
   calm [alice; mkUser "ABCDEFGHI" "a\0b" None [] 0 1700000001]).
Proof.
  assert (nul_address ≠ "") as H1 by done.
  assert (String.length (sql_text nul_address) ≤ 255)%nat as H2
    by (vm_compute; repeat constructor).
  assert (sql_text nul_address ∉ wallet_address <$> [alice]) as H3
    by (by intros [=]%list_elem_of_singleton).
  assert (generateUserId (random env1) ∉ userid <$> [alice]) as H4
    by (by intros [=]%list_elem_of_singleton).
  split; [exact H1|]. split; [exact H2|]. split; [exact H3|]. split; [exact H4|].
  exact (register_inserts_fresh_row env1 [alice] nul_address H1 H2 H3 H4).
Defined.

(** ** Registration with a referrer (C2, C4) *)

Lemma find_app_Some {A} (p : A → bool) (l k : list A) x :
  find p l = Some x → find p (l ++ k) = Some x.
Proof.
  induction l as [|y l IH]; simpl; [done|]. by destruct (p y).
Qed.

Lemma find_userid_write_back id inst (db : list User) :
  find (λ u, String.eqb (userid u) id) (write_back inst <$> db) =
  write_back inst <$> find (λ u, String.eqb (userid u) id) db.
Proof.
  induction db as [|u db IH]; [done|].
  rewrite fmap_cons. simpl. rewrite write_back_userid.
  by destruct (String.eqb (userid u) id).
Qed.

Lemma occurs_once (x : string) (l : list string) :
  x ∉ l → length (filter (λ y, y = x) (l ++ [x])) = 1%nat.
Proof.
  intros Hx. rewrite filter_app, List.length_app.
  replace (filter (λ y, y = x) l) with (@nil string).
  - rewrite filter_cons. by destruct (decide (x = x)).
  - symmetry. induction l as [|y l IH]; [done|].
    apply not_elem_of_cons in Hx as [Hne Hx]. rewrite filter_cons.
    destruct (decide (y = x)); [congruence | by apply IH].
Qed.

(** A referrer found in a well-formed table was asked for by its identifier,
    letter for letter: identifiers have no NUL to rewrite. *)
Lemma referrer_written db r referrer :
  well_formed db →
  find (λ u, String.eqb (userid u) (sql_text r)) db = Some referrer →
  sql_text r = r.
Proof.
  intros Hwf [Hin Hid]%find_userid_Some. apply alphabet_written.
  rewrite <- Hid. intros c. by apply (wf_ids_alphabet db Hwf).
Qed.

(** C2: after a successful [register_referred], the referrer's row has
    [total_referrals] one greater than before, its [referred_users] is the
    old list followed by the new user's identifier, which occurs in it
    exactly once, and the answer's [referrer_new_total] is the new counter.
    The referrer is the row whose identifier is [referred_by], and the new
    row and the answer carry the wallet address as the store writes it. *)
Theorem register_referred_credits_referrer e wallet referrer_id db script resp w' :
  reachable db →
  register_referred e wallet referrer_id (mkWorld db script) = (Ok resp, w') →
  status resp = 201%nat →
  ∃ w r before after,
    wallet = Some w ∧ referrer_id = Some r ∧
    find (λ u, String.eqb (userid u) r) db = Some before ∧
    find (λ u, String.eqb (userid u) r) (users w') = Some after ∧
    with_defaults e (generateUserId (random e)) (sql_text w) (Some r) ∈ users w' ∧
    total_referrals after = total_referrals before + 1 ∧
    referred_users after = referred_users before ++ [generateUserId (random e)] ∧
    length (filter (λ id, id = generateUserId (random e)) (referred_users after)) = 1%nat ∧
    body resp = Referred "User registered with referral successfully"
                  (generateUserId (random e)) (sql_text w) (total_referrals after).
Proof.
  intros Hwf%reachable_well_formed Hrun%register_referred_inv Hstatus.
  destruct Hrun as [_ Hno
    | w r referrer err _ _ _ _ _ _ _ _ ->
    | w r referrer -> -> _ _ _ Hfind Hfresh -> ->]; [done | done |].
  pose proof (referrer_written db r referrer Hwf Hfind) as Hwritten.
  rewrite Hwritten in *.
  set (nid := generateUserId (random e)) in *.
  pose proof Hfind as [Hin Hr]%find_userid_Some.
  apply violates_unique_false in Hfresh as [Hid _]. simpl in Hid.
  assert (Hhit : userid referrer = userid (credit referrer nid)) by done.
  destruct (write_back_hit _ _ Hhit) as [Hlist Htotal]. simpl in Hlist, Htotal.
  assert (Hneq : userid (with_defaults e nid (sql_text w) (Some r))
                 ≠ userid (credit referrer nid)).
  { simpl. intros Heq. apply Hid. rewrite Heq. by apply list_elem_of_fmap_2. }
  exists w, r, referrer, (write_back (credit referrer nid) referrer).
  split_and!; try done.
  - rewrite find_userid_write_back, (find_app_Some _ _ _ _ Hfind). done.
  - apply list_elem_of_fmap. eexists. split; [|apply elem_of_app; right; apply list_elem_of_here].
    by rewrite write_back_other.
  - rewrite Hlist. apply occurs_once. intros Hold. apply Hid.
    by eapply (wf_referred db Hwf).
  - simpl. by rewrite Htotal.
Qed.

Lemma register_referred_credits_referrer_witness :
  reachable [alice] ∧
  register_referred env1 (Some "0xBBB") (Some "AAAAAAAAA") (calm [alice]) =
    (Ok (mkResponse 201 (Referred "User registered with referral successfully"
                                  "ABCDEFGHI" "0xBBB" 1)),
     calm [credit alice "ABCDEFGHI"; bob]) ∧
  ∃ w r before after,
    Some "0xBBB" = Some w ∧ Some "AAAAAAAAA" = Some r ∧
    find (λ u, String.eqb (userid u) r) [alice] = Some before ∧
    find (λ u, String.eqb (userid u) r) [credit alice "ABCDEFGHI"; bob]
      = Some after ∧
    with_defaults env1 "ABCDEFGHI" (sql_text w) (Some r)
      ∈ [credit alice "ABCDEFGHI"; bob] ∧
    total_referrals after = total_referrals before + 1 ∧
    referred_users after = referred_users before ++ ["ABCDEFGHI"] ∧
    length (filter (λ id, id = "ABCDEFGHI") (referred_users after)) = 1%nat ∧
    Referred "User registered with referral successfully" "ABCDEFGHI" "0xBBB" 1 =
    Referred "User registered with referral successfully" "ABCDEFGHI" (sql_text w)
      (total_referrals after).
Proof.
  split; [exact alice_reachable|]. split; [reflexivity|].
  exact (register_referred_credits_referrer env1 (Some "0xBBB") (Some "AAAAAAAAA")
           [alice] [] _ (calm [credit alice "ABCDEFGHI"; bob])
           alice_reachable eq_refl eq_refl).
Defined.

(** C4 as stated fails for an empty (or absent) [referred_by]: the field
    check comes first, and its 400 is not the duplicate-wallet error. *)
Lemma register_referred_conflict_first_counterexample :
  reachable [alice] ∧ alice ∈ [alice] ∧
  register_referred env1 (Some (wallet_address alice)) (Some "") (calm [alice]) =
    (Ok (mkResponse 400 (Error "Missing wallet_address or referred_by")), calm [alice]) ∧
  mkResponse 400 (Error "Missing wallet_address or referred_by") ≠ already_registered.
Proof.
  split; [exact alice_reachable|]. split; [apply list_elem_of_here|].
  split; [reflexivity | discriminate].
Qed.

(** C4, amended: for a wallet address already registered and any non-empty
    [referred_by], naming a user or not, [register_referred] answers the 400
    duplicate-wallet error, not the 404 of an unknown referrer, and leaves the
    table as it was. *)
Theorem register_referred_conflict_first e db u w r :
  reachable db → u ∈ db → wallet_address u = w → r ≠ "" →
  register_referred e (Some w) (Some r) (calm db) = (Ok already_registered, calm db).
Proof.
  intros Hwf%reachable_well_formed Hu <- Hr.
  pose proof (wf_wallet_nonempty db Hwf u Hu) as Hne.
  pose proof (find_wallet_unique db u (wf_wallets db Hwf) Hu) as Hfind.
  rewrite <- (wf_wallet_written db Hwf u Hu) in Hfind.
  unfold_handler. destruct (wallet_address u) as [|c s] eqn:Hw; [done|].
  destruct r as [|c' s']; [done|].
  simpl. by rewrite Hfind.
Qed.

Lemma register_referred_conflict_first_witness :
  reachable [alice] ∧ alice ∈ [alice] ∧ wallet_address alice = "0xAAA" ∧
  "ZZZZZZZZZ" ≠ "" ∧
  register_referred env1 (Some "0xAAA") (Some "ZZZZZZZZZ") (calm [alice]) =
  (Ok already_registered, calm [alice]).
Proof.
  assert ("ZZZZZZZZZ" ≠ "") as Hr by done.
  split; [exact alice_reachable|]. split; [apply list_elem_of_here|].
  split; [reflexivity|]. split; [exact Hr|].
  exact (register_referred_conflict_first env1 [alice] alice "0xAAA" "ZZZZZZZZZ"
           alice_reachable (list_elem_of_here _ _) eq_refl Hr).
Defined.

(** ** Failed referral registrations (C5) *)






(** ** A rejected insert (C6) *)

(** C6 as stated fails: an insert rejected for uniqueness is answered 500.
    Here the generated identifier is the one the referrer already has. *)
Lemma insert_conflict_counterexample :
  create env0 (with_defaults env0 (generateUserId (random env0)) "0xCCC" (Some "AAAAAAAAA"))
    (calm [alice]) =
    (Throw (UniqueConstraintError "Validation error"), calm [alice]) ∧
  register_referred env0 (Some "0xCCC") (Some "AAAAAAAAA") (calm [alice]) =
    (Ok (mkResponse 500 (Error "Validation error")), calm [alice]) ∧
  status (mkResponse 500 (Error "Validation error")) ≠ 400%nat.
Proof. split; [reflexivity|]. split; [reflexivity | discriminate]. Qed.

(** C6, amended: when the insert of [register] or [register_referred] is
    rejected with a uniqueness violation, by the table's own constraints or
    because of a row written meanwhile, the answer is 500 with the body
    [{error: <message>}], and the table is left as it was. *)
Theorem insert_conflict_answers_500 e w db script text w1 :
  w ≠ "" → (sql_text w ∉ wallet_address <$> db) →
  (create e (with_defaults e (generateUserId (random e)) w None) (mkWorld db script) =
     (Throw (UniqueConstraintError text), w1) →
   register e (Some w) (mkWorld db (None :: script)) =
     (Ok (mkResponse 500 (Error text)), w1) ∧ users w1 = db) ∧
  (∀ r referrer,
     r ≠ "" → find (λ u, String.eqb (userid u) (sql_text r)) db = Some referrer →
     create e (with_defaults e (generateUserId (random e)) w (Some r)) (mkWorld db script) =
       (Throw (UniqueConstraintError text), w1) →
     register_referred e (Some w) (Some r) (mkWorld db (None :: None :: script)) =
       (Ok (mkResponse 500 (Error text)), w1) ∧ users w1 = db).
Proof.
  intros Hw Hfree%find_wallet_None. split.
  - unfold_handler. destruct w as [|c s]; [done|]. simpl. rewrite Hfree.
    run_handler; intros [= ? ?]; by subst.
  - intros r referrer Hr Hfind. unfold_handler.
    destruct w as [|c s]; [done|]. destruct r as [|c' s']; [done|].
    simpl. rewrite Hfree. rewrite ?query_run. simpl. rewrite Hfind.
    run_handler; intros [= ? ?]; by subst.
Qed.

Lemma insert_conflict_answers_500_witness :
  "0xCCC" ≠ "" ∧ (sql_text "0xCCC" ∉ wallet_address <$> [alice]) ∧
  create env0 (with_defaults env0 (generateUserId (random env0)) "0xCCC" None)
    (mkWorld [alice] []) =
    (Throw (UniqueConstraintError "Validation error"), calm [alice]) ∧
  register env0 (Some "0xCCC") (mkWorld [alice] [None]) =
    (Ok (mkResponse 500 (Error "Validation error")), calm [alice]) ∧
  users (calm [alice]) = [alice].
Proof.
  assert ("0xCCC" ≠ "") as H1 by done.
  assert (sql_text "0xCCC" ∉ wallet_address <$> [alice]) as H2
    by (by intros [=]%list_elem_of_singleton).
  split; [exact H1|]. split; [exact H2|]. split; [reflexivity|].
  exact (proj1 (insert_conflict_answers_500 env0 "0xCCC" [alice] []
                  "Validation error" (calm [alice]) H1 H2) eq_refl).
Defined.

(** ** Bulk lookup (C7, C10) *)

Lemma bulk_lookup_array ws db :
  bulk_lookup (JArr ws) (calm db) =
  (Ok (mkResponse 200
         (Mapping (build_mapping (filter (λ u, wallet_address u ∈ sql_text <$> ws) db)))),
   calm db).
Proof. reflexivity. Qed.

Lemma bulk_lookup_not_array v w :
  isArray v = false →
  bulk_lookup v w = (Ok (mkResponse 400 (Error "wallet_addresses must be an array")), w).
Proof. intros Hv. unfold_handler. by rewrite Hv. Qed.

Lemma build_mapping_snoc found u :
  build_mapping (found ++ [u]) =
  js_set (wallet_address u) (userid u) (build_mapping found).
Proof. unfold build_mapping. by rewrite foldl_app. Qed.

Lemma find_wallet_snoc k (found : list User) u :
  find (λ v, String.eqb (wallet_address v) k) (found ++ [u]) =
  match find (λ v, String.eqb (wallet_address v) k) found with
  | Some v => Some v
  | None => if String.eqb (wallet_address u) k then Some u else None
  end.
Proof.
  induction found as [|v found IH]; simpl; [done|].
  by destruct (String.eqb (wallet_address v) k).
Qed.

(** The mapping built from rows with distinct addresses: every address but
    [__proto__] is a key, bound to its row's identifier. *)
Lemma build_mapping_lookup k (found : list User) :
  NoDup (wallet_address <$> found) →
  build_mapping found !! k =
  if String.eqb k "__proto__" then None
  else userid <$> find (λ v, String.eqb (wallet_address v) k) found.
Proof.
  induction found as [|u found IH] using rev_ind; intros Hnodup.
  { unfold build_mapping; simpl. simpl. rewrite lookup_empty. by destruct (String.eqb _ _). }
  rewrite fmap_app in Hnodup. apply NoDup_app in Hnodup as (Hfound & Hnew & _).
  rewrite build_mapping_snoc, find_wallet_snoc. unfold js_set.
  destruct (String.eqb_spec (wallet_address u) "__proto__") as [Hproto|Hplain].
  - rewrite IH by done. destruct (String.eqb_spec k "__proto__") as [->|Hk]; [done|].
    destruct (String.eqb_spec (wallet_address u) k); [congruence|].
    by destruct (find _ found).
  - destruct (String.eqb_spec (wallet_address u) k) as [<-|Hother].
    + rewrite lookup_insert_eq.
      destruct (String.eqb_spec (wallet_address u) "__proto__"); [done|].
      destruct (find _ found) as [v|] eqn:Hfind; [|done].
      apply find_wallet_Some in Hfind as [Hv Heq].
      destruct (Hnew (wallet_address u)).
      * rewrite <- Heq. by apply list_elem_of_fmap_2.
      * apply list_elem_of_here.
    + rewrite lookup_insert_ne by done. rewrite IH by done.
      by destruct (find _ found), (String.eqb k "__proto__").
Qed.

(** The rows found do not depend on the order of the addresses asked for. *)
Lemma bulk_lookup_permutation ws ws' w :
  ws ≡ₚ ws' → bulk_lookup (JArr ws) w = bulk_lookup (JArr ws') w.
Proof.
  intros Hperm. destruct w as [db script]. unfold_handler.
  destruct script as [|[err|] rest]; simpl; try done.
  all: rewrite (list_filter_iff (λ u, wallet_address u ∈ sql_text <$> ws)
                  (λ u, wallet_address u ∈ sql_text <$> ws')); [done|].
  all: intros u; by rewrite Hperm.
Qed.

(** What the mapping holds, in a reachable table: the addresses asked for
    that some user has, other than [__proto__], each with its user's
    identifier. *)
Lemma bulk_lookup_mapping db ws :
  reachable db →
  ∃ m,
    bulk_lookup (JArr ws) (calm db) = (Ok (mkResponse 200 (Mapping m)), calm db) ∧
    ∀ k id, m !! k = Some id ↔
            k ≠ "__proto__" ∧ (k ∈ sql_text <$> ws) ∧
            ∃ u, u ∈ db ∧ wallet_address u = k ∧ userid u = id.
Proof.
  intros Hwf%reachable_well_formed. eexists. split; [apply bulk_lookup_array|].
  intros k id.
  assert (NoDup (wallet_address <$>
                   filter (λ u, wallet_address u ∈ sql_text <$> ws) db)) as Hnodup.
  { eapply sublist_NoDup; [apply (wf_wallets db Hwf)|].
    apply fmap_sublist, sublist_filter. }
  rewrite (build_mapping_lookup k _ Hnodup).
  destruct (String.eqb_spec k "__proto__") as [->|Hk].
  { split; [done | by intros [? _]]. }
  destruct (find _ _) as [v|] eqn:Hfind; simpl.
  - apply find_wallet_Some in Hfind as [[Hws Hv]%list_elem_of_filter Heq].
    split.
    + intros [= <-]. split_and!; [done | by rewrite <- Heq | by exists v].
    + intros (_ & _ & u & Hu & Hku & <-). f_equal.
      assert (u = v) as -> ; [|done].
      apply list_elem_of_lookup in Hu as [i Hi], Hv as [j Hj].
      pose proof (wf_wallets db Hwf) as Hdistinct.
      assert (i = j) as ->; [|congruence].
      eapply NoDup_lookup; [exact Hdistinct| |]; rewrite list_lookup_fmap.
      * rewrite Hi. reflexivity.
      * rewrite Hj. simpl. congruence.
  - split; [done|]. intros (_ & Hws & u & Hu & Hku & _).
    apply find_wallet_None in Hfind as []. rewrite <- Hku.
    apply list_elem_of_fmap_2, list_elem_of_filter. split; [by rewrite Hku | done].
Qed.

(** C7: the mapping of [bulk_lookup] should have every input address that
    exists in the table as a key.  The address [__proto__] can be registered,
    and is then left out of the mapping. *)
Theorem bulk_lookup_drops_proto_key :
  register env0 (Some "__proto__") (calm []) =
    (Ok (mkResponse 201
           (Registered "User registered successfully" "AAAAAAAAA" "__proto__"
              "http://localhost:3000/referral/AAAAAAAAA")),
     calm [proto_user]) ∧
  get_user "__proto__" (calm [proto_user]) =
    (Ok (mkResponse 200 (Profile "AAAAAAAAA" "__proto__" None [] 0 1700000000)),
     calm [proto_user]) ∧
  bulk_lookup (JArr ["__proto__"]) (calm [proto_user]) =
    (Ok (mkResponse 200 (Mapping ∅)), calm [proto_user]).
Proof. split; [reflexivity|]. split; reflexivity. Qed.

Lemma filter_wallets_nil (db : list User) :
  filter (λ u, wallet_address u ∈ @nil string) db = [].
Proof.
  induction db as [|u db IH]; [done|]. rewrite filter_cons.
  destruct (decide _) as [Hin|_]; [by apply elem_of_nil in Hin | done].
Qed.

(** C10: for an array with repeated addresses, the mapping has each key at
    most once, and is the mapping of the array without the repetitions; for
    the empty array the answer is 200 with the empty mapping. *)
Theorem bulk_lookup_duplicates_and_empty db ws :
  ∃ m,
    bulk_lookup (JArr ws) (calm db) = (Ok (mkResponse 200 (Mapping m)), calm db) ∧
    NoDup (map_to_list m).*1 ∧
    bulk_lookup (JArr (remove_dups ws)) (calm db) =
      (Ok (mkResponse 200 (Mapping m)), calm db) ∧
    bulk_lookup (JArr []) (calm db) = (Ok (mkResponse 200 (Mapping ∅)), calm db).
Proof.
  eexists. split_and!.
  - apply bulk_lookup_array.
  - apply NoDup_fst_map_to_list.
  - rewrite bulk_lookup_array.
    rewrite (list_filter_iff (λ u, wallet_address u ∈ sql_text <$> remove_dups ws)
               (λ u, wallet_address u ∈ sql_text <$> ws)); [done|].
    intros u. rewrite !list_elem_of_fmap. by setoid_rewrite elem_of_remove_dups.
  - rewrite bulk_lookup_array. change (sql_text <$> []) with (@nil string).
    by rewrite filter_wallets_nil.
Qed.

Example bulk_lookup_repeated :
  bulk_lookup (JArr ["0xAAA"; "0xAAA"; "0xAAA"]) (calm [alice]) =
  (Ok (mkResponse 200 (Mapping {[ "0xAAA" := "AAAAAAAAA" ]})), calm [alice]).
Proof. vm_compute. reflexivity. Qed.

(** ** The identifier generator *)

(** In range, the nine draws pick nine characters of the alphabet. *)
Lemma generateUserId_in_range rnd :
  (∀ i, (i < 9)%nat → (rnd i < 36)%nat) →
  ∃ pick : nat → Ascii.ascii,
    (∀ i, (i < 9)%nat → String.list_ascii_of_string chars !! rnd i = Some (pick i)) ∧
    String.list_ascii_of_string (generateUserId rnd) = pick <$> seq 0 9.
Proof.
  intros Hrange.
  exists (λ i, default Ascii.zero (String.list_ascii_of_string chars !! rnd i)).
  assert (∀ i, (i < 9)%nat →
            String.list_ascii_of_string chars !! rnd i =
            Some (default Ascii.zero (String.list_ascii_of_string chars !! rnd i)))
    as Hpick.
  { intros i Hi. destruct (lookup_lt_is_Some_2 (String.list_ascii_of_string chars) (rnd i))
      as [c Hc]; [simpl; by apply Hrange|]. by rewrite Hc. }
  split; [done|]. rewrite generateUserId_unfold.
  apply bind_option_list_all. intros i [_ Hi]%elem_of_seq. apply Hpick. lia.
Qed.

(** X1: The generated identifier never exceeds the nine characters of its column;
    when every draw is below 36, as [Math.floor(Math.random() * 36)] is, it
    has exactly nine characters, all from [A-Z0-9]. *)
Theorem generateUserId_shape rnd :
  (String.length (generateUserId rnd) ≤ 9)%nat ∧
  ((∀ i, (i < 9)%nat → (rnd i < 36)%nat) →
   String.length (generateUserId rnd) = 9%nat ∧
   ∀ c, c ∈ String.list_ascii_of_string (generateUserId rnd) →
        c ∈ String.list_ascii_of_string chars).
Proof.
  split.
  - rewrite string_length_list, generateUserId_unfold.
    apply (bind_option_list_length _ (seq 0 9)).
  - intros (pick & Hpick & Hid)%generateUserId_in_range.
    rewrite string_length_list, Hid. split; [by rewrite length_fmap|].
    intros c (i & -> & [_ Hi]%elem_of_seq)%list_elem_of_fmap.
    eapply list_elem_of_lookup_2, Hpick. lia.
Qed.

Lemma generateUserId_shape_witness :
  (∀ i, (i < 9)%nat → (random env1 i < 36)%nat) ∧
  String.length (generateUserId (random env1)) = 9%nat.
Proof.
  assert (∀ i, (i < 9)%nat → (random env1 i < 36)%nat) as Hrange
    by (intros i Hi; simpl; lia).
  split; [exact Hrange|].
  exact (proj1 (proj2 (generateUserId_shape (random env1)) Hrange)).
Defined.

(** X2: Two runs of the generator, with draws below 36, give the same identifier
    only when all nine draws are the same. *)
Theorem generateUserId_inj rnd rnd' :
  (∀ i, (i < 9)%nat → (rnd i < 36)%nat) →
  (∀ i, (i < 9)%nat → (rnd' i < 36)%nat) →
  generateUserId rnd = generateUserId rnd' →
  ∀ i, (i < 9)%nat → rnd i = rnd' i.
Proof.
  intros (pick & Hpick & Hid)%generateUserId_in_range
         (pick' & Hpick' & Hid')%generateUserId_in_range Heq i Hi.
  rewrite Heq, Hid' in Hid.
  assert (pick' i = pick i) as Hsame.
  { assert ((pick' <$> seq 0 9) !! i = (pick <$> seq 0 9) !! i) as Hi' by by rewrite Hid.
    rewrite !list_lookup_fmap, lookup_seq_lt in Hi' by done. by injection Hi'. }
  eapply NoDup_lookup; [apply chars_NoDup | by apply Hpick |].
  rewrite <- Hsame. by apply Hpick'.
Qed.

Lemma generateUserId_inj_witness :
  (∀ i, (i < 9)%nat → (random env1 i < 36)%nat) ∧
  generateUserId (random env1) = generateUserId (λ i, if Nat.ltb i 9 then i else 0%nat) ∧
  ∀ i, (i < 9)%nat → random env1 i = (if Nat.ltb i 9 then i else 0%nat).
Proof.
  assert (∀ i, (i < 9)%nat → (random env1 i < 36)%nat) as Hrange
    by (intros i Hi; simpl; lia).
  assert (∀ i, (i < 9)%nat → ((if Nat.ltb i 9 then i else 0) < 36)%nat) as Hrange'
    by (intros i Hi; destruct (Nat.ltb_spec i 9); lia).
  split; [exact Hrange|]. split; [reflexivity|].
  exact (generateUserId_inj (random env1) (λ i, if Nat.ltb i 9 then i else 0%nat)
           Hrange Hrange' eq_refl).
Defined.

(** ** The lookups *)

Lemma get_user_written db u w :
  well_formed db → u ∈ db → sql_text w = wallet_address u →
  get_user w (calm db) = (Ok (profile_of u), calm db).
Proof.
  intros Hwf Hu Hw. unfold_handler. simpl.
  by rewrite Hw, (find_wallet_unique db u (wf_wallets db Hwf) Hu).
Qed.

Lemma get_user_found db u :
  well_formed db → u ∈ db →
  get_user (wallet_address u) (calm db) = (Ok (profile_of u), calm db).
Proof.
  intros Hwf Hu. apply get_user_written; [done | done |].
  by apply (wf_wallet_written db Hwf).
Qed.

(** X3: In a reachable table, [GET /user/:wallet_address] answers 200 with all
    six columns of the one user whose address is the parameter as the store
    writes it (NUL rewritten), which every stored address is of itself, and
    404 when no user has the parameter as written; the table is not
    written. *)
Theorem get_user_answers db :
  reachable db →
  (∀ u w, u ∈ db → sql_text w = wallet_address u →
          get_user w (calm db) = (Ok (profile_of u), calm db)) ∧
  (∀ u, u ∈ db → get_user (wallet_address u) (calm db) = (Ok (profile_of u), calm db)) ∧
  (∀ w, (sql_text w ∉ wallet_address <$> db) →
        get_user w (calm db) =
        (Ok (mkResponse 404 (Error "User not found for that wallet address.")), calm db)).
Proof.
  intros Hwf%reachable_well_formed. split_and!.
  - intros u w Hu Hw. by apply get_user_written.
  - intros u Hu. by apply get_user_found.
  - intros w Hw%find_wallet_None. unfold_handler. simpl. by rewrite Hw.
Qed.

Lemma get_user_answers_witness :
  reachable [credit alice "ABCDEFGHI"; bob] ∧
  get_user "0xAAA" (calm [credit alice "ABCDEFGHI"; bob]) =
  (Ok (mkResponse 200 (Profile "AAAAAAAAA" "0xAAA" None ["ABCDEFGHI"] 1 1700000000)),
   calm [credit alice "ABCDEFGHI"; bob]).
Proof.
  split; [exact alice_bob_reachable|].
  exact (proj1 (get_user_answers [credit alice "ABCDEFGHI"; bob] alice_bob_reachable)
           (credit alice "ABCDEFGHI") "0xAAA" (list_elem_of_here _ _) eq_refl).
Defined.

(** X4: In a reachable table, [GET /referral/:userid] answers 200 with the
    identifier and the wallet address of the one user who has the identifier,
    and 404 "Invalid user ID" when no user has it. *)
Theorem get_referral_answers db :
  reachable db →
  (∀ u, u ∈ db →
        get_referral (userid u) (calm db) =
        (Ok (mkResponse 200 (ReferralInfo (userid u) (wallet_address u))), calm db)) ∧
  (∀ id, (id ∉ userid <$> db) →
         get_referral id (calm db) =
         (Ok (mkResponse 404 (Error "Invalid user ID")), calm db)).
Proof.
  intros Hwf%reachable_well_formed. split.
  - intros u Hu. unfold_handler. simpl.
    rewrite (alphabet_plain (userid u)) by (intros c; by apply (wf_ids_alphabet db Hwf)).
    by rewrite (find_userid_unique db u (wf_ids db Hwf) Hu).
  - intros id Hid. assert (sql_text id ∉ userid <$> db) as Hwritten.
    { intros (u & Hsame & Hu)%list_elem_of_fmap. apply Hid.
      rewrite <- (alphabet_written id).
      - rewrite Hsame. by apply list_elem_of_fmap_2.
      - rewrite Hsame. intros c. by apply (wf_ids_alphabet db Hwf). }
    apply find_userid_None in Hwritten. unfold_handler. simpl. by rewrite Hwritten.
Qed.

Lemma get_referral_answers_witness :
  reachable [credit alice "ABCDEFGHI"; bob] ∧
  get_referral "ABCDEFGHI" (calm [credit alice "ABCDEFGHI"; bob]) =
  (Ok (mkResponse 200 (ReferralInfo "ABCDEFGHI" "0xBBB")),
   calm [credit alice "ABCDEFGHI"; bob]).
Proof.
  split; [exact alice_bob_reachable|].
  exact (proj1 (get_referral_answers [credit alice "ABCDEFGHI"; bob] alice_bob_reachable)
           bob (list_elem_of_further _ _ _ (list_elem_of_here _ _))).
Defined.






(** ** Checks of the body, and store exceptions *)

(** X7: A request whose body fails its handler's first check is answered 400
    ([GET /] is answered 200) without a single store call: the table and the
    exceptions still to come are left as they were. *)
Theorem rejected_before_store e req w :
  reaches_store req = false →
  ∃ resp,
    handle e req w = (Ok resp, w) ∧
    (req = GetRoot ∧ status resp = 200%nat ∨
     status resp = 400%nat ∧
     ∃ text, body resp = Error text ∧
       (text = "Missing wallet_address" ∨
        text = "Missing wallet_address or referred_by" ∨
        text = "wallet_addresses must be an array")).
Proof.
  destruct req as [|wa|wallet|id|wallet referrer_id|v]; simpl; try done.
  - intros _. eexists. split; [reflexivity | by left].
  - intros Hmiss%negb_false_iff. unfold_handler.
    destruct wallet as [[|c s]|]; try done;
      (eexists; split; [reflexivity | right; split; [done|]; eexists; split; [done|]; auto]).
  - intros Hmiss. unfold_handler.
    destruct wallet as [[|c s]|], referrer_id as [[|c' s']|]; try done;
      (eexists; split; [reflexivity | right; split; [done|]; eexists; split; [done|]; auto]).
  - intros Hv. unfold_handler. rewrite Hv. simpl.
    eexists; split; [reflexivity | right; split; [done|]; eexists; split; [done|]; auto].
Qed.

Lemma rejected_before_store_witness :
  reaches_store (PostRegisterReferred (Some "0xBBB") (Some "")) = false ∧
  ∃ resp,
    handle env1 (PostRegisterReferred (Some "0xBBB") (Some ""))
      (mkWorld [alice] [Some store_down]) =
      (Ok resp, mkWorld [alice] [Some store_down]) ∧
    (PostRegisterReferred (Some "0xBBB") (Some "") = GetRoot ∧ status resp = 200%nat ∨
     status resp = 400%nat ∧
     ∃ text, body resp = Error text ∧
       (text = "Missing wallet_address" ∨
        text = "Missing wallet_address or referred_by" ∨
        text = "wallet_addresses must be an array")).
Proof.
  split; [reflexivity|].
  exact (rejected_before_store env1 (PostRegisterReferred (Some "0xBBB") (Some ""))
           (mkWorld [alice] [Some store_down]) eq_refl).
Defined.

(** X8: When the first store call of a request throws, the request is answered
    500 with the exception's message as [error], and the table is left as it
    was. *)
Theorem first_store_call_throws e req db err rest :
  reaches_store req = true →
  handle e req (mkWorld db (Some err :: rest)) =
  (Ok (mkResponse 500 (Error (message err))), mkWorld db rest).
Proof.
  destruct req as [|wa|wallet|id|wallet referrer_id|v]; simpl; try done.
  - intros Hmiss. unfold_handler. by destruct wallet as [[|c s]|].
  - intros Hmiss. unfold_handler.
    by destruct wallet as [[|c s]|], referrer_id as [[|c' s']|].
  - intros Hv. unfold_handler. by rewrite Hv.
Qed.

Lemma first_store_call_throws_witness :
  reaches_store (PostBulkLookup (JArr ["0xAAA"])) = true ∧
  handle env1 (PostBulkLookup (JArr ["0xAAA"])) (mkWorld [alice] [Some store_down]) =
  (Ok (mkResponse 500 (Error "Connection terminated unexpectedly")), mkWorld [alice] []).
Proof.
  split; [reflexivity|].
  exact (first_store_call_throws env1 (PostBulkLookup (JArr ["0xAAA"])) [alice]
           store_down [] eq_refl).
Defined.

(** ** What one request does to the table *)

(** X9: Every request is answered 200, 201, 400, 404 or 500.  Answered 201, it
    has added exactly one row; answered 200, 400 or 404, it has left the
    table as it was. *)
Theorem status_and_table e req db script resp w' :
  handle e req (mkWorld db script) = (Ok resp, w') →
  status resp ∈ [200; 201; 400; 404; 500]%nat ∧
  (status resp = 201%nat → length (users w') = S (length db)) ∧
  (status resp ≠ 201%nat → status resp ≠ 500%nat → users w' = db).
Proof.
  destruct req as [|wa|wallet|id|wallet referrer_id|v]; simpl.
  - intros [= <- <-]. simpl. split_and!; [set_solver | done | done].
  - unfold_handler; run_handler; intros [= <- <-]; simpl;
      (split_and!; [set_solver | done | done]).
  - unfold_handler; destruct wallet as [[|c s]|]; run_handler; intros [= <- <-]; simpl;
      (split_and!; [set_solver | try done | try done]).
    all: intros _; rewrite List.length_app; simpl; lia.
  - unfold_handler; run_handler; intros [= <- <-]; simpl;
      (split_and!; [set_solver | done | done]).
  - unfold_handler; destruct wallet as [[|c s]|], referrer_id as [[|c' s']|];
      run_handler; intros [= <- <-]; simpl;
      (split_and!; [set_solver | try done | try done]).
    all: intros _; rewrite length_fmap, List.length_app; simpl; lia.
  - unfold_handler; destruct v; run_handler; intros [= <- <-]; simpl;
      (split_and!; [set_solver | done | done]).
Qed.

Lemma status_and_table_witness :
  handle env1 (PostRegisterReferred (Some "0xBBB") (Some "AAAAAAAAA")) (calm [alice]) =
    (Ok (mkResponse 201 (Referred "User registered with referral successfully"
                                  "ABCDEFGHI" "0xBBB" 1)),
     calm [credit alice "ABCDEFGHI"; bob]) ∧
  length [credit alice "ABCDEFGHI"; bob] = S (length [alice]).
Proof.
  split; [reflexivity|].
  exact (proj1 (proj2 (status_and_table env1
                         (PostRegisterReferred (Some "0xBBB") (Some "AAAAAAAAA"))
                         [alice] [] _ (calm [credit alice "ABCDEFGHI"; bob]) eq_refl))
           eq_refl).
Defined.

(** X10: No request deletes a row, reorders the rows, or changes the identifier,
    the wallet address, the referrer or the creation time of a row: these
    columns of the new table are those of the old one, followed by those of
    at most one new row. *)
Theorem rows_are_kept e req db script resp w' :
  handle e req (mkWorld db script) = (Ok resp, w') →
  ∃ added,
    (length added ≤ 1)%nat ∧
    fixed_columns <$> users w' = (fixed_columns <$> db) ++ (fixed_columns <$> added).
Proof.
  assert (∀ inst (l : list User),
            fixed_columns <$> (write_back inst <$> l) = fixed_columns <$> l) as Hkeep.
  { intros inst l. rewrite <- list_fmap_compose. apply list_fmap_ext.
    intros ? u _. unfold fixed_columns, write_back. simpl.
    by destruct (String.eqb _ _). }
  assert (∃ added : list User, (length added ≤ 1)%nat ∧
            fixed_columns <$> db = (fixed_columns <$> db) ++ (fixed_columns <$> added))
    as Hsame by (exists []; split; [simpl; lia | by rewrite app_nil_r]).
  destruct req as [|wa|wallet|id|wallet referrer_id|v]; simpl.
  - by intros [= <- <-].
  - by intros ->%get_user_reads.
  - intros [[-> _]|(w & _ & _ & _ & _ & -> & _)]%register_inv; [done|].
    eexists [_]. split; [simpl; lia | by rewrite fmap_app].
  - by intros ->%get_referral_reads.
  - intros Hrun%register_referred_inv.
    destruct Hrun as [-> _
      | w r referrer err _ _ _ _ _ _ _ -> _
      | w r referrer _ _ _ _ _ _ _ -> _]; [done | |].
    + eexists [_]. split; [simpl; lia | by rewrite fmap_app].
    + eexists [_]. split; [simpl; lia | by rewrite Hkeep, fmap_app].
  - by intros ->%bulk_lookup_reads.
Qed.

Lemma rows_are_kept_witness :
  handle env1 (PostRegisterReferred (Some "0xBBB") (Some "AAAAAAAAA")) (calm [alice]) =
    (Ok (mkResponse 201 (Referred "User registered with referral successfully"
                                  "ABCDEFGHI" "0xBBB" 1)),
     calm [credit alice "ABCDEFGHI"; bob]) ∧
  ∃ added,
    (length added ≤ 1)%nat ∧
    fixed_columns <$> [credit alice "ABCDEFGHI"; bob] =
    (fixed_columns <$> [alice]) ++ (fixed_columns <$> added).
Proof.
  split; [reflexivity|].
  exact (rows_are_kept env1 (PostRegisterReferred (Some "0xBBB") (Some "AAAAAAAAA"))
           [alice] [] _ (calm [credit alice "ABCDEFGHI"; bob]) eq_refl).
Defined.

(** X11: A row is left exactly as it was by every request, except by a referred
    registration answered 201 whose [referred_by], as the store writes it, is
    the row's identifier; in a reachable table, where no identifier has a
    character that the store rewrites, [referred_by] is the row's identifier
    itself. *)
Theorem only_the_referrer_changes e req db script resp w' u :
  handle e req (mkWorld db script) = (Ok resp, w') →
  u ∈ db →
  u ∈ users w' ∨
  ∃ wallet r,
    req = PostRegisterReferred wallet (Some r) ∧ sql_text r = userid u ∧
    status resp = 201%nat ∧
    (reachable db → req = PostRegisterReferred wallet (Some (userid u))).
Proof.
  intros Hrun Hu. destruct req as [|wa|wallet|id|wallet referrer_id|v]; simpl in Hrun.
  - injection Hrun as <- <-. by left.
  - apply get_user_reads in Hrun as ->. by left.
  - apply register_inv in Hrun as [[-> _]|(w & _ & _ & _ & _ & -> & _)]; left; [done|].
    apply elem_of_app. by left.
  - apply get_referral_reads in Hrun as ->. by left.
  - apply register_referred_inv in Hrun.
    destruct Hrun as [-> _
      | w r referrer err _ _ _ _ _ _ _ -> _
      | w r referrer -> -> _ _ _ Hfind _ -> ->].
    + by left.
    + left. apply elem_of_app. by left.
    + pose proof Hfind as [_ Hr]%find_userid_Some.
      destruct (decide (userid u = sql_text r)) as [Hsame|Hother].
      * right. exists (Some w), r. split_and!; try done.
        intros Hwf%reachable_well_formed.
        by rewrite Hsame, (referrer_written db r referrer Hwf Hfind).
      * left. apply list_elem_of_fmap. exists u. split.
        -- rewrite write_back_other; [done | simpl; congruence].
        -- apply elem_of_app. by left.
  - apply bulk_lookup_reads in Hrun as ->. by left.
Qed.

Lemma only_the_referrer_changes_witness :
  handle env1 (PostRegisterReferred (Some "0xBBB") (Some "AAAAAAAAA")) (calm [alice]) =
    (Ok (mkResponse 201 (Referred "User registered with referral successfully"
                                  "ABCDEFGHI" "0xBBB" 1)),
     calm [credit alice "ABCDEFGHI"; bob]) ∧
  alice ∈ [alice] ∧
  (alice ∈ [credit alice "ABCDEFGHI"; bob] ∨
   ∃ wallet r,
     PostRegisterReferred (Some "0xBBB") (Some "AAAAAAAAA") =
     PostRegisterReferred wallet (Some r) ∧ sql_text r = userid alice ∧
     status (mkResponse 201 (Referred "User registered with referral successfully"
                                      "ABCDEFGHI" "0xBBB" 1)) = 201%nat ∧
     (reachable [alice] →
      PostRegisterReferred (Some "0xBBB") (Some "AAAAAAAAA") =
      PostRegisterReferred wallet (Some (userid alice)))).
Proof.
  split; [reflexivity|]. split; [apply list_elem_of_here|].
  exact (only_the_referrer_changes env1
           (PostRegisterReferred (Some "0xBBB") (Some "AAAAAAAAA"))
           [alice] [] _ (calm [credit alice "ABCDEFGHI"; bob]) alice
           eq_refl (list_elem_of_here _ _)).
Defined.

(** ** The list of referred users *)

Lemma referred_ids_app id (db1 db2 : list User) :
  referred_ids id (db1 ++ db2) = referred_ids id db1 ++ referred_ids id db2.
Proof. unfold referred_ids. by rewrite filter_app, fmap_app. Qed.

Lemma referred_ids_write_back id inst (db : list User) :
  referred_ids id (write_back inst <$> db) = referred_ids id db.
Proof.
  unfold referred_ids. induction db as [|u db IH]; [done|].
  rewrite fmap_cons, !filter_cons, write_back_referred_by.
  destruct (decide _); [|done]. by rewrite !fmap_cons, write_back_userid, IH.
Qed.

Lemma referred_ids_unreferenced id (db : list User) :
  (∀ v, v ∈ db → referred_by v ≠ Some id) → referred_ids id db = [].
Proof.
  unfold referred_ids. induction db as [|u db IH]; intros Hno; [done|].
  rewrite filter_cons. destruct (decide _) as [Hby|_].
  - destruct (Hno u); [apply list_elem_of_here | done].
  - apply IH. intros v Hv. apply Hno. by apply list_elem_of_further.
Qed.

Lemma referred_ids_fresh id (db : list User) :
  well_formed db → (id ∉ userid <$> db) → referred_ids id db = [].
Proof.
  intros Hwf Hfresh. apply referred_ids_unreferenced. intros v Hv Hby.
  by destruct (wf_referrer db Hwf v id Hv Hby).
Qed.

Lemma referred_ids_row e nid w r id :
  referred_ids id [with_defaults e nid w r] =
  if decide (r = Some id) then [nid] else [].
Proof.
  unfold referred_ids. rewrite filter_cons. simpl.
  by destruct (decide (r = Some id)).
Qed.

Lemma referral_count_referred_ids id (db : list User) :
  (∀ v, v ∈ db → referred_by v ≠ Some (userid v)) →
  referral_count id db = length (referred_ids id db).
Proof.
  unfold referral_count, referred_ids. rewrite length_fmap.
  induction db as [|u db IH]; intros Hself; [done|].
  assert (referred_by u ≠ Some (userid u)) as Hu by apply Hself, list_elem_of_here.
  rewrite !filter_cons.
  destruct (decide (referred_by u = Some id ∧ userid u ≠ id)) as [[Hby Hne]|Hno],
           (decide (referred_by u = Some id)) as [Hby'|Hno']; simpl.
  - f_equal. apply IH. intros v Hv. apply Hself. by apply list_elem_of_further.
  - done.
  - destruct Hno. split; [done|]. intros Heq. apply Hu. by rewrite Heq.
  - apply IH. intros v Hv. apply Hself. by apply list_elem_of_further.
Qed.

(** The invariant behind the bound, kept by every step. *)
Lemma reachable_tracked db :
  reachable db →
  ∀ u, u ∈ db →
    total_referrals u = Z.of_nat (length (referred_users u)) ∧
    referred_users u `sublist_of` referred_ids (userid u) db.
Proof.
  induction 1 as [|db e req script resp w' Hreach IH Hrun].
  { intros u Hu. by apply elem_of_nil in Hu. }
  pose proof (reachable_well_formed db Hreach) as Hwf.
  assert (∀ w r, violates_unique (with_defaults e (generateUserId (random e)) w r) db = false →
            ∀ u, u ∈ db ++ [with_defaults e (generateUserId (random e)) w r] →
              total_referrals u = Z.of_nat (length (referred_users u)) ∧
              referred_users u `sublist_of`
                referred_ids (userid u) (db ++ [with_defaults e (generateUserId (random e)) w r]))
    as Hinsert.
  { intros w r Hfresh u [Hu| ->%list_elem_of_singleton]%elem_of_app.
    - destruct (IH u Hu) as [Htotal Hsub]. split; [done|].
      rewrite referred_ids_app. by apply sublist_inserts_r.
    - split; [done | apply sublist_nil_l]. }
  destruct req as [|wa|wallet|id|wallet referrer_id|v]; simpl in Hrun.
  - by injection Hrun as <- <-.
  - by apply get_user_reads in Hrun as ->.
  - apply register_inv in Hrun as [[-> _]|(w & _ & _ & _ & Hfresh & -> & _)];
      [done | by apply Hinsert].
  - by apply get_referral_reads in Hrun as ->.
  - apply register_referred_inv in Hrun.
    destruct Hrun as [-> _
      | w r referrer err _ _ _ _ _ _ Hfresh -> _
      | w r referrer _ _ _ _ _ Hfind Hfresh -> _];
      [done | by apply Hinsert |].
    pose proof (referrer_written db r referrer Hwf Hfind) as Hwritten.
    rewrite Hwritten in *. apply find_userid_Some in Hfind as [Hin Hr].
    pose proof Hfresh as [Hid _]%violates_unique_false. simpl in Hid.
    set (nid := generateUserId (random e)) in *.
    assert (Hneq : nid ≠ r).
    { intros ->. apply Hid. rewrite <- Hr. by apply list_elem_of_fmap_2. }
    intros u' (u & -> & Hu)%list_elem_of_fmap.
    rewrite write_back_userid, referred_ids_write_back, referred_ids_app,
      referred_ids_row.
    destruct (decide (userid u = r)) as [Heq|Hother].
    + destruct (write_back_hit (credit referrer nid) u) as [-> ->];
        [simpl; congruence|]. simpl.
      destruct (IH referrer Hin) as [Htotal Hsub]. rewrite Hr in Hsub.
      rewrite List.length_app. simpl. split; [lia|].
      rewrite Heq. destruct (decide (Some r = Some r)); [|done].
      by apply sublist_app.
    + rewrite write_back_other by (simpl; congruence).
      destruct (Hinsert (sql_text w) (Some r) Hfresh u Hu) as [Htotal Hsub].
      rewrite referred_ids_app, referred_ids_row in Hsub. done.
  - by apply bulk_lookup_reads in Hrun as ->.
Qed.

(** X12: After any requests, failed ones and store exceptions included, a user's
    counter is the length of the user's [referred_users], every entry of
    which is, in order, the identifier of a user who names this user as
    referrer; so the counter is never negative and never more than the
    number of users referred. *)
Theorem counter_never_overcounts db u :
  reachable db → u ∈ db →
  total_referrals u = Z.of_nat (length (referred_users u)) ∧
  referred_users u `sublist_of` referred_ids (userid u) db ∧
  0 ≤ total_referrals u ≤ Z.of_nat (referral_count (userid u) db).
Proof.
  intros Hreach Hu. destruct (reachable_tracked db Hreach u Hu) as [Htotal Hsub].
  split_and!; [done | done | lia |].
  rewrite referral_count_referred_ids.
  - apply sublist_length in Hsub. lia.
  - intros v Hv Hby.
    by destruct (wf_referrer db (reachable_well_formed db Hreach) v _ Hv Hby).
Qed.

Lemma counter_never_overcounts_witness :
  reachable [alice; bob] ∧ alice ∈ [alice; bob] ∧
  total_referrals alice = Z.of_nat (length (referred_users alice)) ∧
  referred_users alice `sublist_of` referred_ids "AAAAAAAAA" [alice; bob] ∧
  0 ≤ total_referrals alice ≤ Z.of_nat (referral_count "AAAAAAAAA" [alice; bob]).
Proof.
  assert (reachable [alice; bob]) as Hreach.
  { exact (reachable_step [alice] env1
             (PostRegisterReferred (Some "0xBBB") (Some "AAAAAAAAA"))
             [None; None; None; Some store_down] _ (mkWorld [alice; bob] [])
             alice_reachable eq_refl). }
  split; [exact Hreach|]. split; [apply list_elem_of_here|].
  exact (counter_never_overcounts [alice; bob] alice Hreach (list_elem_of_here _ _)).
Defined.

Lemma reachable_ok_reverse_index db :
  reachable_ok db → ∀ u, u ∈ db → referred_users u = referred_ids (userid u) db.
Proof.
  induction 1 as [|db e req script resp w' Hreach IH Hrun Hok].
  { intros u Hu. by apply elem_of_nil in Hu. }
  pose proof (reachable_well_formed db (reachable_ok_reachable db Hreach)) as Hwf.
  destruct req as [|wa|wallet|id|wallet referrer_id|v]; simpl in Hrun.
  - by injection Hrun as <- <-.
  - by apply get_user_reads in Hrun as ->.
  - apply register_inv in Hrun as [[-> _]|(w & _ & _ & _ & Hfresh & -> & _)]; [done|].
    apply violates_unique_false in Hfresh as [Hid _]. simpl in Hid.
    intros u [Hu| ->%list_elem_of_singleton]%elem_of_app;
      rewrite referred_ids_app, referred_ids_row;
      (destruct (decide (None = Some _)); [done|]); rewrite app_nil_r.
    + by apply IH.
    + simpl. by rewrite referred_ids_fresh.
  - by apply get_referral_reads in Hrun as ->.
  - apply register_referred_inv in Hrun.
    destruct Hrun as [-> _
      | w r referrer err _ _ _ _ _ _ _ _ ->
      | w r referrer _ _ _ _ _ Hfind Hfresh -> _];
      [done | discriminate Hok |].
    pose proof (referrer_written db r referrer Hwf Hfind) as Hwritten.
    rewrite Hwritten in *. apply find_userid_Some in Hfind as [Hin Hr].
    apply violates_unique_false in Hfresh as [Hid _]. simpl in Hid.
    set (nid := generateUserId (random e)) in *.
    assert (Hneq : nid ≠ r).
    { intros ->. apply Hid. rewrite <- Hr. by apply list_elem_of_fmap_2. }
    intros u' (u & -> & Hu)%list_elem_of_fmap.
    rewrite write_back_userid, referred_ids_write_back, referred_ids_app,
      referred_ids_row.
    apply elem_of_app in Hu as [Hu| ->%list_elem_of_singleton].
    + destruct (decide (userid u = r)) as [Heq|Hother].
      * destruct (write_back_hit (credit referrer nid) u) as [-> _];
          [simpl; congruence|]. simpl.
        rewrite (IH referrer Hin), Hr, Heq.
        by destruct (decide (Some r = Some r)).
      * rewrite write_back_other by (simpl; congruence).
        destruct (decide (Some r = Some (userid u))) as [[=]|_]; [congruence|].
        rewrite app_nil_r. by apply IH.
    + rewrite write_back_other by (simpl; congruence). simpl.
      destruct (decide (Some r = Some nid)) as [[=]|_]; [congruence|].
      by rewrite referred_ids_fresh.
  - by apply bulk_lookup_reads in Hrun as ->.
Qed.

(** X13: After successful requests only, a user's [referred_users] is exactly the
    list of the identifiers of the users whose [referred_by] is this user's
    identifier, in the order they registered. *)
Theorem referred_users_is_reverse_index db u :
  reachable_ok db → u ∈ db →
  referred_users u = userid <$> filter (λ v, referred_by v = Some (userid u)) db.
Proof. intros Hreach Hu. by apply reachable_ok_reverse_index. Qed.

Lemma referred_users_is_reverse_index_witness :
  reachable_ok [credit alice "ABCDEFGHI"; bob] ∧
  credit alice "ABCDEFGHI" ∈ [credit alice "ABCDEFGHI"; bob] ∧
  referred_users (credit alice "ABCDEFGHI") =
  userid <$> filter (λ v, referred_by v = Some "AAAAAAAAA") [credit alice "ABCDEFGHI"; bob].
Proof.
  split; [exact alice_bob_reachable_ok|]. split; [apply list_elem_of_here|].
  exact (referred_users_is_reverse_index [credit alice "ABCDEFGHI"; bob]
           (credit alice "ABCDEFGHI") alice_bob_reachable_ok (list_elem_of_here _ _)).
Defined.

(** ** More on the bulk lookup *)

(** X14: In a reachable table, the mapping of [bulk_lookup] binds a key to an
    identifier exactly when the key is one of the addresses asked for as the
    store writes them (NUL rewritten), is not [__proto__], and is the wallet
    address of the user with that identifier; and each of its entries is what
    [GET /user/:wallet_address] answers for the key. *)
Theorem bulk_lookup_entries db ws :
  reachable db →
  ∃ m,
    bulk_lookup (JArr ws) (calm db) = (Ok (mkResponse 200 (Mapping m)), calm db) ∧
    (∀ k id, m !! k = Some id ↔
             k ≠ "__proto__" ∧ (k ∈ sql_text <$> ws) ∧
             ∃ u, u ∈ db ∧ wallet_address u = k ∧ userid u = id) ∧
    (∀ k id, m !! k = Some id →
             ∃ u, userid u = id ∧
                  get_user k (calm db) = (Ok (profile_of u), calm db)).
Proof.
  intros Hreach. destruct (bulk_lookup_mapping db ws Hreach) as (m & Hrun & Hm).
  exists m. split_and!; [done | done |].
  intros k id (_ & _ & u & Hu & <- & <-)%Hm. exists u. split; [done|].
  apply get_user_found; [by apply reachable_well_formed | done].
Qed.

Lemma bulk_lookup_entries_witness :
  reachable [credit alice "ABCDEFGHI"; bob] ∧
  ∃ m,
    bulk_lookup (JArr ["0xBBB"; "0xCCC"]) (calm [credit alice "ABCDEFGHI"; bob]) =
      (Ok (mkResponse 200 (Mapping m)), calm [credit alice "ABCDEFGHI"; bob]) ∧
    (∀ k id, m !! k = Some id ↔
             k ≠ "__proto__" ∧ (k ∈ sql_text <$> ["0xBBB"; "0xCCC"]) ∧
             ∃ u, u ∈ [credit alice "ABCDEFGHI"; bob] ∧
                  wallet_address u = k ∧ userid u = id) ∧
    (∀ k id, m !! k = Some id →
             ∃ u, userid u = id ∧
                  get_user k (calm [credit alice "ABCDEFGHI"; bob]) =
                  (Ok (profile_of u), calm [credit alice "ABCDEFGHI"; bob])).
Proof.
  split; [exact alice_bob_reachable|].
  exact (bulk_lookup_entries [credit alice "ABCDEFGHI"; bob] ["0xBBB"; "0xCCC"]
           alice_bob_reachable).
Defined.

(** X15: The answer of [bulk_lookup] does not depend on the order of the addresses
    in the array, whatever the table and whatever the store does. *)
Theorem bulk_lookup_order_irrelevant ws ws' w :
  ws ≡ₚ ws' → bulk_lookup (JArr ws) w = bulk_lookup (JArr ws') w.
Proof. apply bulk_lookup_permutation. Qed.

Lemma bulk_lookup_order_irrelevant_witness :
  ["0xBBB"; "0xAAA"] ≡ₚ ["0xAAA"; "0xBBB"] ∧
  bulk_lookup (JArr ["0xBBB"; "0xAAA"]) (calm [credit alice "ABCDEFGHI"; bob]) =
  bulk_lookup (JArr ["0xAAA"; "0xBBB"]) (calm [credit alice "ABCDEFGHI"; bob]).
Proof.
  assert (["0xBBB"; "0xAAA"] ≡ₚ ["0xAAA"; "0xBBB"]) as Hperm by apply Permutation_swap.
  split; [exact Hperm|].
  exact (bulk_lookup_order_irrelevant _ _ (calm [credit alice "ABCDEFGHI"; bob]) Hperm).
Defined.

(** * Facts about the variant of [app.js] *)

Example appjs_register_first :
  AppJs.register AppJs.env0 (Some "0xCAR") (AppJs.calm []) =
  (Ok (AppJs.mkResponse 201
         (AppJs.Registered "User registered successfully"
            "3f2b8c1e-5d4a-4f6b-9c7d-0a1b2c3d4e5f" (Some "TW-100000") "0xCAR"
            "http://localhost:3000/referral/9a8b7c6d")),
   AppJs.calm [AppJs.carol]).
Proof. vm_compute. reflexivity. Qed.

Example appjs_register_referred_dave :
  AppJs.register_referred AppJs.env1 (Some "0xDAV") (Some "0xCAR")
    (AppJs.calm [AppJs.carol]) =
  (Ok (AppJs.mkResponse 201
         (AppJs.Referred "User registered with referral successfully"
            "0c1d2e3f-aaaa-4bbb-8ccc-ddddeeeeffff" (Some "TW-999999") "0xDAV"
            "1234abcd" 1)),
   AppJs.calm [AppJs.credit AppJs.carol; AppJs.dave]).
Proof. vm_compute. reflexivity. Qed.

Lemma appjs_query_run {A} (op : list AppJs.User → outcome A * list AppJs.User) db script :
  AppJs.query op (AppJs.mkWorld db script) =
  match script with
  | Some err :: rest => (Throw err, AppJs.mkWorld db rest)
  | _ => let '(r, db') := op db in (r, AppJs.mkWorld db' (tail script))
  end.
Proof. destruct script as [|[err|] rest]; reflexivity. Qed.

Ltac appjs_unfold :=
  unfold AppJs.register, AppJs.register_referred, AppJs.get_referral,
    AppJs.get_root, AppJs.try_catch, AppJs.internal_error, AppJs.reply,
    AppJs.findOne_wallet, AppJs.findOne_code, AppJs.create, AppJs.save;
  unfold mbind, AppJs.async_bind, mret, AppJs.async_ret;
  rewrite ?appjs_query_run.

Lemma appjs_stored_with_defaults e w r :
  AppJs.stored (AppJs.with_defaults e w (AppJs.generateReferralCode (AppJs.code_uuid e))
                  (AppJs.generateFrontendId (AppJs.draw e)) r) =
  AppJs.new_row e w r.
Proof. reflexivity. Qed.

Ltac appjs_run :=
  repeat (simpl; rewrite ?appjs_query_run, ?appjs_stored_with_defaults;
          match goal with
          | |- context [match ?s with [] => _ | _ :: _ => _ end] =>
              is_var s; destruct s as [|[?|] ?]
          | |- context [find ?f ?db] => destruct (find f db) eqn:?
          | |- context [AppJs.too_long ?u] => destruct (AppJs.too_long u) eqn:?
          | |- context [AppJs.violates_unique ?u ?db] =>
              destruct (AppJs.violates_unique u db) eqn:?
          end);
  simpl.

Lemma appjs_find_wallet_None w (db : list AppJs.User) :
  find (λ u, String.eqb (AppJs.wallet_address u) w) db = None ↔
  w ∉ (AppJs.wallet_address <$> db).
Proof.
  induction db as [|u db IH]; simpl.
  - split; [intros _; apply not_elem_of_nil | done].
  - rewrite not_elem_of_cons. destruct (String.eqb_spec (AppJs.wallet_address u) w).
    + split; [done | intros [? _]; congruence].
    + rewrite IH. split; [intros ?; split; [congruence | done] | tauto].
Qed.

Lemma appjs_find_wallet_Some w (db : list AppJs.User) u :
  find (λ u, String.eqb (AppJs.wallet_address u) w) db = Some u →
  u ∈ db ∧ AppJs.wallet_address u = w.
Proof.
  intros H. apply find_some in H as [Hin Heq].
  split; [by apply list_elem_of_In | by apply String.eqb_eq].
Qed.


Lemma appjs_violates_unique_false u (db : list AppJs.User) :
  AppJs.violates_unique u db = false ↔
  (AppJs.id u ∉ AppJs.id <$> db) ∧
  (AppJs.wallet_address u ∉ AppJs.wallet_address <$> db) ∧
  (AppJs.referral_code u ∉ AppJs.referral_code <$> db).
Proof.
  unfold AppJs.violates_unique. induction db as [|v db IH]; simpl.
  - split; [intros _; split_and!; apply not_elem_of_nil | done].
  - rewrite !not_elem_of_cons, !orb_false_iff, IH.
    destruct (String.eqb_spec (AppJs.id v) (AppJs.id u)),
             (String.eqb_spec (AppJs.wallet_address v) (AppJs.wallet_address u)),
             (String.eqb_spec (AppJs.referral_code v) (AppJs.referral_code u));
      split; intros H; destruct_and?; try done; split_and!; congruence.
Qed.

Lemma appjs_violates_unique_true u (db : list AppJs.User) :
  (AppJs.referral_code u ∈ AppJs.referral_code <$> db) →
  AppJs.violates_unique u db = true.
Proof.
  intros Hin. destruct (AppJs.violates_unique u db) eqn:Hv; [done|].
  by apply appjs_violates_unique_false in Hv as (_ & _ & []).
Qed.

Lemma appjs_write_back_fixed inst u :
  AppJs.id (AppJs.write_back inst u) = AppJs.id u ∧
  AppJs.wallet_address (AppJs.write_back inst u) = AppJs.wallet_address u ∧
  AppJs.referral_code (AppJs.write_back inst u) = AppJs.referral_code u ∧
  AppJs.referred_by (AppJs.write_back inst u) = AppJs.referred_by u.
Proof. unfold AppJs.write_back. by destruct (String.eqb _ _). Qed.

Lemma appjs_write_back_other inst u :
  AppJs.id u ≠ AppJs.id inst → AppJs.write_back inst u = u.
Proof.
  unfold AppJs.write_back.
  by destruct (String.eqb_spec (AppJs.id u) (AppJs.id inst)).
Qed.

Lemma appjs_write_back_hit inst u :
  AppJs.id u = AppJs.id inst →
  AppJs.total_referrals (AppJs.write_back inst u) = AppJs.total_referrals inst.
Proof.
  unfold AppJs.write_back.
  by destruct (String.eqb_spec (AppJs.id u) (AppJs.id inst)).
Qed.

Lemma appjs_fmap_write_back inst (db : list AppJs.User) :
  AppJs.id <$> (AppJs.write_back inst <$> db) = AppJs.id <$> db ∧
  AppJs.wallet_address <$> (AppJs.write_back inst <$> db) = AppJs.wallet_address <$> db ∧
  AppJs.referral_code <$> (AppJs.write_back inst <$> db) = AppJs.referral_code <$> db.
Proof.
  split_and!; rewrite <- list_fmap_compose; apply list_fmap_ext; intros ? u _;
    apply appjs_write_back_fixed.
Qed.

Lemma appjs_register_inv e wallet db script resp w' :
  AppJs.register e wallet (AppJs.mkWorld db script) = (Ok resp, w') →
  (AppJs.users w' = db ∧ AppJs.status resp ≠ 201%nat) ∨
  (∃ w, wallet = Some w ∧ w ≠ "" ∧ (sql_text w ∉ AppJs.wallet_address <$> db) ∧
        AppJs.violates_unique (AppJs.new_row e w None) db = false ∧
        AppJs.users w' = db ++ [AppJs.new_row e w None] ∧
        resp = AppJs.mkResponse 201
                 (AppJs.Registered "User registered successfully"
                    (AppJs.row_uuid e)
                    (Some (sql_text (AppJs.generateFrontendId (AppJs.draw e))))
                    (sql_text w)
                    ("http://localhost:3000/referral/" +:+
                     sql_text (AppJs.generateReferralCode (AppJs.code_uuid e)))) ∧
        AppJs.too_long (AppJs.new_row e w None) = false).
Proof.
  appjs_unfold. destruct wallet as [[|c s]|]; appjs_run;
    intros [= <- <-]; try (left; by split).
  all: right; eexists; repeat split; try done.
  all: by apply appjs_find_wallet_None.
Qed.

Lemma appjs_register_referred_inv e wallet referrer_wallet db script resp w' :
  AppJs.register_referred e wallet referrer_wallet (AppJs.mkWorld db script) =
    (Ok resp, w') →
  AppJs.referred_run e wallet referrer_wallet db resp (AppJs.users w').
Proof.
  appjs_unfold.
  destruct wallet as [[|c s]|], referrer_wallet as [[|c' s']|]; appjs_run;
    intros [= <- <-]; try (by apply AppJs.referred_untouched).
  all: match goal with
       | H : find _ _ = None |- _ => apply appjs_find_wallet_None in H
       end.
  all: first [ by eapply AppJs.referred_complete
             | by eapply AppJs.referred_insert_only ].
Qed.

Lemma appjs_get_referral_reads code db script resp w' :
  AppJs.get_referral code (AppJs.mkWorld db script) = (Ok resp, w') →
  AppJs.users w' = db.
Proof. appjs_unfold; appjs_run; by intros [= <- <-]. Qed.

Lemma NoDup_fmap_eq {A B} (f : A → B) (l : list A) x y :
  NoDup (f <$> l) → x ∈ l → y ∈ l → f x = f y → x = y.
Proof.
  intros Hnodup [i Hi]%list_elem_of_lookup [j Hj]%list_elem_of_lookup Heq.
  assert (i = j) as ->; [|congruence].
  eapply NoDup_lookup; [exact Hnodup| |]; rewrite list_lookup_fmap.
  - rewrite Hi. reflexivity.
  - rewrite Hj. simpl. by rewrite Heq.
Qed.

Lemma appjs_well_formed_nil : AppJs.well_formed [].
Proof.
  split; try apply NoDup_nil_2; intros u *; by rewrite elem_of_nil.
Qed.

Lemma appjs_well_formed_insert db row :
  AppJs.well_formed db →
  AppJs.violates_unique row db = false →
  AppJs.wallet_address row ≠ "" →
  sql_text (AppJs.wallet_address row) = AppJs.wallet_address row →
  (∀ r, AppJs.referred_by row = Some r → r ∈ AppJs.wallet_address <$> db) →
  AppJs.well_formed (db ++ [row]).
Proof.
  intros [Hids Hwallets Hcodes Hne Hwritten Href]
    (Hid & Hw & Hc)%appjs_violates_unique_false Hrow Hrow' Hr.
  split.
  - rewrite fmap_app. apply NoDup_app. split_and!; [done| |apply NoDup_singleton].
    intros x Hx ->%list_elem_of_singleton. done.
  - rewrite fmap_app. apply NoDup_app. split_and!; [done| |apply NoDup_singleton].
    intros x Hx ->%list_elem_of_singleton. done.
  - rewrite fmap_app. apply NoDup_app. split_and!; [done| |apply NoDup_singleton].
    intros x Hx ->%list_elem_of_singleton. done.
  - intros u [Hu| ->%list_elem_of_singleton]%elem_of_app; [by apply Hne | done].
  - intros u [Hu| ->%list_elem_of_singleton]%elem_of_app; [by apply Hwritten | done].
  - intros u r [Hu| ->%list_elem_of_singleton]%elem_of_app Hby.
    + destruct (Href u r Hu Hby) as [Hin Hneq].
      split; [rewrite fmap_app; apply elem_of_app; by left | done].
    + specialize (Hr r Hby).
      split; [rewrite fmap_app; apply elem_of_app; by left | congruence].
Qed.

Lemma appjs_well_formed_new_row db e w r :
  AppJs.well_formed db → w ≠ "" →
  AppJs.violates_unique (AppJs.new_row e w r) db = false →
  (∀ r', r = Some r' → sql_text r' ∈ AppJs.wallet_address <$> db) →
  AppJs.well_formed (db ++ [AppJs.new_row e w r]).
Proof.
  intros Hwf Hw Hfresh Hr. apply appjs_well_formed_insert; try done; simpl.
  - by apply sql_text_nonempty.
  - apply sql_text_idem.
  - intros r' Hby. destruct r as [r0|]; [|done]. injection Hby as <-. by apply Hr.
Qed.

Lemma appjs_well_formed_write_back db inst :
  AppJs.well_formed db → AppJs.well_formed (AppJs.write_back inst <$> db).
Proof.
  intros [Hids Hwallets Hcodes Hne Hwritten Href].
  destruct (appjs_fmap_write_back inst db) as (Eid & Ew & Ec).
  split; rewrite ?Eid, ?Ew, ?Ec; try done.
  - intros u' (u & -> & Hu)%list_elem_of_fmap.
    destruct (appjs_write_back_fixed inst u) as (_ & -> & _). by apply Hne.
  - intros u' (u & -> & Hu)%list_elem_of_fmap.
    destruct (appjs_write_back_fixed inst u) as (_ & -> & _). by apply Hwritten.
  - intros u' r (u & -> & Hu)%list_elem_of_fmap.
    destruct (appjs_write_back_fixed inst u) as (_ & -> & _ & ->). by apply Href.
Qed.

Lemma appjs_step_well_formed e req db script resp w' :
  AppJs.well_formed db →
  AppJs.handle e req (AppJs.mkWorld db script) = (Ok resp, w') →
  AppJs.well_formed (AppJs.users w').
Proof.
  intros Hwf. destruct req as [|wallet|code|wallet referrer_wallet]; simpl.
  - by intros [= <- <-].
  - intros [[-> _]|(w & -> & Hw & Hfree & Hfresh & -> & _)]%appjs_register_inv; [done|].
    by apply appjs_well_formed_new_row.
  - by intros ->%appjs_get_referral_reads.
  - intros Hrun%appjs_register_referred_inv.
    destruct Hrun as [-> _
      | w r referrer err -> -> Hw Hr Hfree [Hin Hwr]%appjs_find_wallet_Some Hfresh -> _
      | w r referrer -> -> Hw Hr Hfree [Hin Hwr]%appjs_find_wallet_Some Hfresh -> _];
      [done| |].
    + apply appjs_well_formed_new_row; try done.
      intros ? [= <-]. rewrite <- Hwr. by apply list_elem_of_fmap_2.
    + apply appjs_well_formed_write_back, appjs_well_formed_new_row; try done.
      intros ? [= <-]. rewrite <- Hwr. by apply list_elem_of_fmap_2.
Qed.

Lemma appjs_reachable_well_formed db : AppJs.reachable db → AppJs.well_formed db.
Proof.
  induction 1 as [|db e req script resp w' _ IH Hrun];
    [apply appjs_well_formed_nil | by eapply appjs_step_well_formed].
Qed.

Lemma appjs_reachable_ok_reachable db : AppJs.reachable_ok db → AppJs.reachable db.
Proof.
  induction 1 as [|db e req script resp w' _ IH Hrun _];
    [apply AppJs.reachable_empty | by eapply AppJs.reachable_step].
Qed.

Lemma appjs_referral_count_app w (db1 db2 : list AppJs.User) :
  AppJs.referral_count w (db1 ++ db2) =
  (AppJs.referral_count w db1 + AppJs.referral_count w db2)%nat.
Proof. unfold AppJs.referral_count. by rewrite filter_app, List.length_app. Qed.

Lemma appjs_referral_count_write_back w inst (db : list AppJs.User) :
  AppJs.referral_count w (AppJs.write_back inst <$> db) = AppJs.referral_count w db.
Proof.
  unfold AppJs.referral_count. induction db as [|u db IH]; [done|].
  rewrite fmap_cons, !filter_cons.
  destruct (appjs_write_back_fixed inst u) as (_ & _ & _ & ->).
  destruct (decide _); simpl; by rewrite IH.
Qed.

Lemma appjs_referral_count_fresh w (db : list AppJs.User) :
  AppJs.well_formed db → (w ∉ AppJs.wallet_address <$> db) →
  AppJs.referral_count w db = 0%nat.
Proof.
  intros Hwf Hfresh. unfold AppJs.referral_count.
  assert (∀ v, v ∈ db → AppJs.referred_by v ≠ Some w) as Hno.
  { intros v Hv Hby. by destruct (AppJs.wf_referrer db Hwf v w Hv Hby). }
  clear Hwf Hfresh. induction db as [|u db IH]; [done|].
  rewrite filter_cons. destruct (decide _) as [Hby|_].
  - destruct (Hno u); [apply list_elem_of_here | done].
  - apply IH. intros v Hv. apply Hno. by apply list_elem_of_further.
Qed.

Lemma appjs_reachable_ok_consistent db :
  AppJs.reachable_ok db →
  ∀ u, u ∈ db →
    AppJs.total_referrals u =
    Z.of_nat (AppJs.referral_count (AppJs.wallet_address u) db).
Proof.
  induction 1 as [|db e req script resp w' Hreach IH Hrun Hok].
  { intros u Hu. by apply elem_of_nil in Hu. }
  pose proof (appjs_reachable_well_formed db (appjs_reachable_ok_reachable db Hreach))
    as Hwf.
  destruct req as [|wallet|code|wallet referrer_wallet]; simpl in Hrun.
  - by injection Hrun as <- <-.
  - apply appjs_register_inv in Hrun
      as [[-> _]|(w & _ & _ & Hfree & Hfresh & -> & _)]; [done|].
    intros u Hu. rewrite appjs_referral_count_app.
    unfold AppJs.referral_count at 2. rewrite filter_cons.
    destruct (decide _) as [[=]|_]. simpl. rewrite Nat.add_0_r.
    apply elem_of_app in Hu as [Hu| ->%list_elem_of_singleton]; [by apply IH|].
    simpl. by rewrite appjs_referral_count_fresh.
  - by apply appjs_get_referral_reads in Hrun as ->.
  - apply appjs_register_referred_inv in Hrun.
    destruct Hrun as [-> _
      | w r referrer err _ _ _ _ _ _ _ _ ->
      | w r referrer _ _ _ _ Hfree [Hin Hwr]%appjs_find_wallet_Some Hfresh -> _];
      [done | discriminate Hok |].
    pose proof Hfresh as (Hid & _ & _)%appjs_violates_unique_false. simpl in Hid.
    assert (Hrw : sql_text r ≠ sql_text w).
    { intros Heq. apply Hfree. rewrite <- Heq, <- Hwr. by apply list_elem_of_fmap_2. }
    intros u' (u & -> & Hu)%list_elem_of_fmap.
    destruct (appjs_write_back_fixed (AppJs.credit referrer) u) as (_ & -> & _).
    rewrite appjs_referral_count_write_back, appjs_referral_count_app.
    unfold AppJs.referral_count at 2. rewrite filter_cons. simpl.
    apply elem_of_app in Hu as [Hu| ->%list_elem_of_singleton].
    + destruct (decide (AppJs.id u = AppJs.id referrer)) as [Heq|Hother].
      * assert (u = referrer) as ->
          by exact (NoDup_fmap_eq AppJs.id db u referrer (AppJs.wf_ids db Hwf) Hu Hin Heq).
        rewrite appjs_write_back_hit by done. simpl. rewrite (IH referrer Hin), Hwr.
        destruct (decide (Some (sql_text r) = Some (sql_text r))); [|done]. simpl. lia.
      * rewrite appjs_write_back_other by done.
        destruct (decide (Some (sql_text r) = Some (AppJs.wallet_address u)))
          as [[= Heq]|_].
        -- destruct Hother. f_equal.
           apply (NoDup_fmap_eq AppJs.wallet_address db u referrer
                    (AppJs.wf_wallets db Hwf) Hu Hin). congruence.
        -- simpl. rewrite Nat.add_0_r. by apply IH.
    + rewrite appjs_write_back_other.
      * simpl. destruct (decide (Some (sql_text r) = Some (sql_text w))) as [[=]|_];
          [done|].
        simpl. by rewrite appjs_referral_count_fresh.
      * simpl. intros Heq. apply Hid. rewrite Heq. by apply list_elem_of_fmap_2.
Qed.

(** ** The generators of [app.js] *)

Lemma substring_length_le (m : nat) (s : string) :
  (String.length (String.substring 0 m s) ≤ m)%nat.
Proof.
  revert s. induction m as [|m IH]; intros [|c s]; simpl; try lia.
  specialize (IH s). lia.
Qed.

Lemma substring_append (a b : string) :
  String.substring 0 (String.length a) (a +:+ b) = a.
Proof.
  induction a as [|c a IH]; simpl; [by destruct b | by rewrite IH].
Qed.

(** X16: The referral code is at most eight characters, and for a UUID it is the
    UUID's first eight characters (its first group). *)
Theorem appjs_generateReferralCode_prefix uuid :
  (String.length (AppJs.generateReferralCode uuid) ≤ 8)%nat ∧
  ∀ first rest,
    String.length first = 8%nat → uuid = first +:+ rest →
    AppJs.generateReferralCode uuid = first.
Proof.
  split; [apply substring_length_le|].
  intros first rest Hlen ->. unfold AppJs.generateReferralCode.
  rewrite <- Hlen. apply substring_append.
Qed.

Lemma appjs_generateReferralCode_prefix_witness :
  String.length "9a8b7c6d" = 8%nat ∧
  AppJs.code_uuid AppJs.env0 = "9a8b7c6d" +:+ "-1111-4222-8333-444455556666" ∧
  AppJs.generateReferralCode (AppJs.code_uuid AppJs.env0) = "9a8b7c6d".
Proof.
  split; [reflexivity|]. split; [reflexivity|].
  exact (proj2 (appjs_generateReferralCode_prefix (AppJs.code_uuid AppJs.env0))
           "9a8b7c6d" "-1111-4222-8333-444455556666" eq_refl eq_refl).
Defined.

Ltac div_lia := zify; Z.div_mod_to_equations; lia.

Lemma pretty_six_digits (n : N) :
  (100000 ≤ n < 1000000)%N → String.length (pretty n) = 6%nat.
Proof.
  intros Hn. unfold pretty, pretty_N. destruct (decide (n = 0%N)); [lia|].
  do 6 (rewrite pretty_N_go_step by div_lia).
  replace (N.div (N.div (N.div (N.div (N.div (N.div n 10) 10) 10) 10) 10) 10)
    with 0%N by div_lia.
  reflexivity.
Qed.

Lemma string_append_length (a b : string) :
  String.length (a +:+ b) = (String.length a + String.length b)%nat.
Proof. induction a as [|c a IH]; simpl; [done | by rewrite IH]. Qed.

(** X17: For a floored draw below 900000, as [Math.floor(Math.random() * 900000)]
    is, the display id is [TW-] followed by the six decimal digits of a number
    from 100000 to 999999; and different draws give different display ids. *)
Theorem appjs_generateFrontendId_shape floored :
  ((floored < 900000)%N →
   String.length (AppJs.generateFrontendId floored) = 9%nat ∧
   ∃ n, (100000 ≤ n ≤ 999999)%N ∧
        String.length (pretty n) = 6%nat ∧
        AppJs.generateFrontendId floored = "TW-" +:+ pretty n) ∧
  (∀ floored', AppJs.generateFrontendId floored = AppJs.generateFrontendId floored' →
               floored = floored').
Proof.
  split.
  - intros Hlt.
    assert (100000 ≤ floored + 100000 < 1000000)%N as Hrange by lia.
    pose proof (pretty_six_digits _ Hrange) as Hsix.
    split.
    + unfold AppJs.generateFrontendId. by rewrite string_append_length, Hsix.
    + exists (floored + 100000)%N. destruct Hrange as [Hlo Hhi].
      split_and!; [done | clear Hsix; lia | done | done].
  - unfold AppJs.generateFrontendId. intros floored' [= Heq].
    simpl in Heq. apply pretty_N_inj in Heq. lia.
Qed.

Lemma appjs_generateFrontendId_shape_witness :
  (899999 < 900000)%N ∧
  String.length (AppJs.generateFrontendId 899999) = 9%nat.
Proof.
  assert (899999 < 900000)%N as Hlt by reflexivity.
  split; [exact Hlt|].
  exact (proj1 (proj1 (appjs_generateFrontendId_shape 899999) Hlt)).
Defined.

(** ** The handlers of [app.js] *)

Lemma appjs_carol_reachable_ok : AppJs.reachable_ok [AppJs.carol].
Proof.
  refine (AppJs.reachable_ok_step [] AppJs.env0 (AppJs.PostRegister (Some "0xCAR")) []
            _ (AppJs.calm [AppJs.carol]) AppJs.reachable_ok_empty _ _).
  - vm_compute. reflexivity.
  - reflexivity.
Defined.

Lemma appjs_carol_dave_reachable_ok :
  AppJs.reachable_ok [AppJs.credit AppJs.carol; AppJs.dave].
Proof.
  refine (AppJs.reachable_ok_step [AppJs.carol] AppJs.env1
            (AppJs.PostRegisterReferred (Some "0xDAV") (Some "0xCAR")) []
            _ (AppJs.calm [AppJs.credit AppJs.carol; AppJs.dave])
            appjs_carol_reachable_ok _ _).
  - vm_compute. reflexivity.
  - reflexivity.
Defined.

Lemma appjs_carol_reachable : AppJs.reachable [AppJs.carol].
Proof. exact (appjs_reachable_ok_reachable _ appjs_carol_reachable_ok). Defined.

Lemma appjs_carol_dave_reachable :
  AppJs.reachable [AppJs.credit AppJs.carol; AppJs.dave].
Proof. exact (appjs_reachable_ok_reachable _ appjs_carol_dave_reachable_ok). Defined.

(** X18: In [app.js] too, registering a wallet address a user already has is
    answered 400 "This wallet address is already registered." and writes
    nothing. *)
Theorem appjs_register_twice_conflict e db u :
  AppJs.reachable db → u ∈ db →
  AppJs.register e (Some (AppJs.wallet_address u)) (AppJs.calm db) =
  (Ok (AppJs.mkResponse 400 (AppJs.Error "This wallet address is already registered.")),
   AppJs.calm db).
Proof.
  intros Hwf%appjs_reachable_well_formed Hu.
  pose proof (AppJs.wf_wallet_nonempty db Hwf u Hu) as Hne.
  pose proof (AppJs.wf_wallet_written db Hwf u Hu) as Hwritten.
  appjs_unfold. destruct (AppJs.wallet_address u) as [|c s] eqn:Hw; [done|].
  appjs_run; try done.
  all: match goal with H : find _ _ = None |- _ =>
         apply appjs_find_wallet_None in H as [] end.
  all: rewrite Hwritten, <- Hw; by apply list_elem_of_fmap_2.
Qed.

Lemma appjs_register_twice_conflict_witness :
  AppJs.reachable [AppJs.carol] ∧ AppJs.carol ∈ [AppJs.carol] ∧
  AppJs.register AppJs.env1 (Some "0xCAR") (AppJs.calm [AppJs.carol]) =
  (Ok (AppJs.mkResponse 400 (AppJs.Error "This wallet address is already registered.")),
   AppJs.calm [AppJs.carol]).
Proof.
  split; [exact appjs_carol_reachable|]. split; [apply list_elem_of_here|].
  exact (appjs_register_twice_conflict AppJs.env1 [AppJs.carol] AppJs.carol
           appjs_carol_reachable (list_elem_of_here _ _)).
Defined.



(** X20: In [app.js], a [referred_by] that, as the store writes it (NUL
    rewritten), is no user's wallet address, be it a user's referral code or
    UUID, never registers anyone: the table is left as it was, and with valid
    fields, a wallet address that as written is not registered and a store
    that does not throw, the answer is 404 "Referrer not found". *)
Theorem appjs_referred_by_must_be_a_wallet e wallet r db script resp w' :
  AppJs.register_referred e wallet (Some r) (AppJs.mkWorld db script) = (Ok resp, w') →
  (sql_text r ∉ AppJs.wallet_address <$> db) →
  AppJs.users w' = db ∧ AppJs.status resp ≠ 201%nat ∧
  (∀ w, wallet = Some w → w ≠ "" → r ≠ "" →
        (sql_text w ∉ AppJs.wallet_address <$> db) →
        script = [] →
        resp = AppJs.mkResponse 404 (AppJs.Error "Referrer not found")).
Proof.
  intros Hrun Hr.
  assert (AppJs.users w' = db ∧ AppJs.status resp ≠ 201%nat) as [Hdb Hno].
  { apply appjs_register_referred_inv in Hrun.
    destruct Hrun as [Hdb Hno
      | w r' referrer err _ [= <-] _ _ _ [Hin Hwr]%appjs_find_wallet_Some _ _ _
      | w r' referrer _ [= <-] _ _ _ [Hin Hwr]%appjs_find_wallet_Some _ _ _];
      [done | |]; destruct Hr; rewrite <- Hwr; by apply list_elem_of_fmap_2. }
  split_and!; [done | done |].
  intros w -> Hw Hrne Hfree%appjs_find_wallet_None ->. revert Hrun.
  apply appjs_find_wallet_None in Hr.
  appjs_unfold. destruct w as [|c s]; [done|]. destruct r as [|c' s']; [done|].
  simpl. rewrite Hfree. rewrite ?appjs_query_run. simpl. rewrite Hr.
  by intros [= <- <-].
Qed.

Lemma appjs_referred_by_must_be_a_wallet_witness :
  AppJs.register_referred AppJs.env1 (Some "0xDAV") (Some "9a8b7c6d")
    (AppJs.calm [AppJs.carol]) =
  (Ok (AppJs.mkResponse 404 (AppJs.Error "Referrer not found")),
   AppJs.calm [AppJs.carol]) ∧
  AppJs.referral_code AppJs.carol = "9a8b7c6d" ∧
  (sql_text "9a8b7c6d" ∉ AppJs.wallet_address <$> [AppJs.carol]) ∧
  AppJs.users (AppJs.calm [AppJs.carol]) = [AppJs.carol].
Proof.
  assert (sql_text "9a8b7c6d" ∉ AppJs.wallet_address <$> [AppJs.carol]) as Hr
    by (by intros [=]%list_elem_of_singleton).
  split; [reflexivity|]. split; [reflexivity|]. split; [exact Hr|].
  exact (proj1 (appjs_referred_by_must_be_a_wallet AppJs.env1 (Some "0xDAV") "9a8b7c6d"
                  [AppJs.carol] [] _ (AppJs.calm [AppJs.carol]) eq_refl Hr)).
Defined.

(** X21: In [app.js], after successful requests only, each user's counter is the
    number of users whose [referred_by] is that user's wallet address. *)
Theorem appjs_total_referrals_counts_by_wallet db u :
  AppJs.reachable_ok db → u ∈ db →
  AppJs.total_referrals u =
  Z.of_nat (length (filter (λ v, AppJs.referred_by v = Some (AppJs.wallet_address u)) db)).
Proof. intros Hreach Hu. by apply appjs_reachable_ok_consistent. Qed.

Lemma appjs_total_referrals_counts_by_wallet_witness :
  AppJs.reachable_ok [AppJs.credit AppJs.carol; AppJs.dave] ∧
  AppJs.credit AppJs.carol ∈ [AppJs.credit AppJs.carol; AppJs.dave] ∧
  AppJs.total_referrals (AppJs.credit AppJs.carol) =
  Z.of_nat (length (filter (λ v, AppJs.referred_by v = Some "0xCAR")
                      [AppJs.credit AppJs.carol; AppJs.dave])).
Proof.
  split; [exact appjs_carol_dave_reachable_ok|]. split; [apply list_elem_of_here|].
  exact (appjs_total_referrals_counts_by_wallet [AppJs.credit AppJs.carol; AppJs.dave]
           (AppJs.credit AppJs.carol) appjs_carol_dave_reachable_ok
           (list_elem_of_here _ _)).
Defined.

(** X22: In [app.js], no user's [referred_by] is that user's own wallet address,
    and every [referred_by] is the wallet address of a user in the table. *)
Theorem appjs_referrers_exist db u r :
  AppJs.reachable db → u ∈ db → AppJs.referred_by u = Some r →
  r ≠ AppJs.wallet_address u ∧ ∃ v, v ∈ db ∧ AppJs.wallet_address v = r.
Proof.
  intros Hwf%appjs_reachable_well_formed Hu Hby.
  destruct (AppJs.wf_referrer db Hwf u r Hu Hby) as [(v & -> & Hv)%list_elem_of_fmap Hne].
  split; [done | by exists v].
Qed.

Lemma appjs_referrers_exist_witness :
  AppJs.reachable [AppJs.credit AppJs.carol; AppJs.dave] ∧
  AppJs.dave ∈ [AppJs.credit AppJs.carol; AppJs.dave] ∧
  AppJs.referred_by AppJs.dave = Some "0xCAR" ∧
  "0xCAR" ≠ AppJs.wallet_address AppJs.dave ∧
  ∃ v, v ∈ [AppJs.credit AppJs.carol; AppJs.dave] ∧ AppJs.wallet_address v = "0xCAR".
Proof.
  split; [exact appjs_carol_dave_reachable|].
  split; [apply list_elem_of_further, list_elem_of_here|]. split; [reflexivity|].
  exact (appjs_referrers_exist [AppJs.credit AppJs.carol; AppJs.dave] AppJs.dave "0xCAR"
           appjs_carol_dave_reachable
           (list_elem_of_further _ _ _ (list_elem_of_here _ _)) eq_refl).
Defined.



(** No value of the row of a registration exceeds its column when the wallet
    address as written has at most 255 characters and the draw is below
    900000. *)
Lemma appjs_too_long_new_row e w :
  (String.length (sql_text w) ≤ 255)%nat → (AppJs.draw e < 900000)%N →
  AppJs.too_long (AppJs.new_row e w None) = false.
Proof.
  intros Hw Hdraw. unfold AppJs.too_long, AppJs.new_row.
  cbn [AppJs.wallet_address AppJs.referral_code AppJs.referred_by AppJs.frontend_id].
  pose proof (sql_text_length_le (AppJs.generateReferralCode (AppJs.code_uuid e))) as Hc.
  pose proof (substring_length_le 8 (AppJs.code_uuid e)) as Hc'.
  pose proof (sql_text_length_le (AppJs.generateFrontendId (AppJs.draw e))) as Hf.
  assert (String.length (AppJs.generateFrontendId (AppJs.draw e)) = 9%nat) as Hf'.
  { unfold AppJs.generateFrontendId. rewrite string_append_length, pretty_six_digits.
    - reflexivity.
    - lia. }
  unfold AppJs.generateReferralCode in *.
  rewrite !orb_false_iff. split_and!; try done; apply Nat.ltb_ge; lia.
Qed.

(** X24: In [app.js], a registration of a wallet address that as written (NUL
    rewritten) is not registered and has at most 255 characters, with a draw
    below 900000, whose referral code is already a user's, as when two UUIDs
    start with the same eight characters, is rejected by the insert: the
    answer is 500 with the constraint error's message, and no row is
    written. *)
Theorem appjs_referral_code_collision e w db :
  w ≠ "" → (sql_text w ∉ AppJs.wallet_address <$> db) →
  (String.length (sql_text w) ≤ 255)%nat → (AppJs.draw e < 900000)%N →
  (sql_text (AppJs.generateReferralCode (AppJs.code_uuid e))
     ∈ AppJs.referral_code <$> db) →
  AppJs.register e (Some w) (AppJs.calm db) =
  (Ok (AppJs.mkResponse 500 (AppJs.Error (AppJs.unique_text e))), AppJs.calm db).
Proof.
  intros Hw Hfree%appjs_find_wallet_None Hlen Hdraw Hcode.
  appjs_unfold. destruct w as [|c s]; [done|]. simpl. rewrite Hfree.
  rewrite ?appjs_query_run, appjs_stored_with_defaults. simpl.
  rewrite appjs_too_long_new_row by done.
  rewrite appjs_violates_unique_true; done.
Qed.

Lemma appjs_referral_code_collision_witness :
  "0xEVE" ≠ "" ∧ (sql_text "0xEVE" ∉ AppJs.wallet_address <$> [AppJs.carol]) ∧
  (sql_text (AppJs.generateReferralCode "9a8b7c6d-ffff-4fff-8fff-ffffffffffff")
     ∈ AppJs.referral_code <$> [AppJs.carol]) ∧
  AppJs.register
    (AppJs.mkEnv 1700000002 "7e57ab1e-0000-4000-8000-000000000001"
       "9a8b7c6d-ffff-4fff-8fff-ffffffffffff" 5%N "Validation error"
       "value too long for type character varying(255)")
    (Some "0xEVE") (AppJs.calm [AppJs.carol]) =
  (Ok (AppJs.mkResponse 500 (AppJs.Error "Validation error")), AppJs.calm [AppJs.carol]).
Proof.
  assert ("0xEVE" ≠ "") as H1 by done.
  assert (sql_text "0xEVE" ∉ AppJs.wallet_address <$> [AppJs.carol]) as H2
    by (by intros [=]%list_elem_of_singleton).
  assert (String.length (sql_text "0xEVE") ≤ 255)%nat as H3 by (vm_compute; lia).
  assert (5 < 900000)%N as H4 by reflexivity.
  assert (sql_text (AppJs.generateReferralCode "9a8b7c6d-ffff-4fff-8fff-ffffffffffff")
            ∈ AppJs.referral_code <$> [AppJs.carol]) as H5
    by (apply list_elem_of_singleton; reflexivity).
  split; [exact H1|]. split; [exact H2|]. split; [exact H5|].
  exact (appjs_referral_code_collision
           (AppJs.mkEnv 1700000002 "7e57ab1e-0000-4000-8000-000000000001"
              "9a8b7c6d-ffff-4fff-8fff-ffffffffffff" 5%N "Validation error"
              "value too long for type character varying(255)")
           "0xEVE" [AppJs.carol] H1 H2 H3 H4 H5).
Defined.
